(** * Journey: a shallow embedding of the trip-planning API handlers

    Sources embedded here:
    - [internal/api/api.go]: the HTTP handlers of the workflow engine;
    - [internal/mailer/mailpit/mailpit.go]: the e-mail notifier;
    - [github.com/google/uuid]: [uuid.Parse] and [UUID.String], which
      the handlers use on every identifier;
    - [time.Time.Format(time.DateOnly)], the grouping key of activities.

    The entity store [internal/pgstore] is not part of the sources: it is
    modelled from the specification (section 4.2) below. *)

From Stdlib Require Import String Ascii Strings.Byte List ZArith Bool Lia.
From Stdlib Require Import NArith Permutation.
Import ListNotations.
Open Scope string_scope.

(* ================================================================== *)
(** ** github.com/google/uuid *)

Module UUIDs.

(** [type UUID [16]byte] *)
Record UUID := mkUUID {
  b0 : byte; b1 : byte; b2 : byte; b3 : byte;
  b4 : byte; b5 : byte; b6 : byte; b7 : byte;
  b8 : byte; b9 : byte; b10 : byte; b11 : byte;
  b12 : byte; b13 : byte; b14 : byte; b15 : byte }.

Definition UUID_eq_dec (u v : UUID) : {u = v} + {u <> v}.
Proof. decide equality; apply Byte.byte_eq_dec. Defined.

Definition UUID_eqb (u v : UUID) : bool :=
  if UUID_eq_dec u v then true else false.

(** [uuid.Nil], the zero value. *)
Definition Nil : UUID :=
  mkUUID x00 x00 x00 x00 x00 x00 x00 x00 x00 x00 x00 x00 x00 x00 x00 x00.

Definition lower (c : ascii) : ascii :=
  let n := N_of_ascii c in
  if (65 <=? n)%N && (n <=? 90)%N then ascii_of_N (n + 32) else c.

Fixpoint map_lower (s : string) : string :=
  match s with
  | EmptyString => EmptyString
  | String c s' => String (lower c) (map_lower s')
  end.

(** [strings.EqualFold], on the ASCII letters the prefix consists of. *)
Definition equal_fold (s t : string) : bool :=
  String.eqb (map_lower s) (map_lower t).

(** [hex.Encode] of one byte: the digits of ["0123456789abcdef"]. *)
Definition hextable (n : N) : ascii :=
  match String.get (N.to_nat n) "0123456789abcdef" with
  | Some c => c
  | None => "0"%char
  end.

Definition hex2 (b : byte) : string :=
  let n := Byte.to_N b in
  String (hextable (N.shiftr n 4)) (String (hextable (N.land n 15)) EmptyString).

(** [func (uuid UUID) String() string]: [encodeHex] into 36 bytes,
    [xxxxxxxx-xxxx-xxxx-xxxx-xxxxxxxxxxxx]. *)
Definition String (u : UUID) : string :=
  hex2 (b0 u) ++ hex2 (b1 u) ++ hex2 (b2 u) ++ hex2 (b3 u) ++ "-" ++
  hex2 (b4 u) ++ hex2 (b5 u) ++ "-" ++
  hex2 (b6 u) ++ hex2 (b7 u) ++ "-" ++
  hex2 (b8 u) ++ hex2 (b9 u) ++ "-" ++
  hex2 (b10 u) ++ hex2 (b11 u) ++ hex2 (b12 u) ++ hex2 (b13 u) ++
  hex2 (b14 u) ++ hex2 (b15 u).

(** [xvalues]: the value of a hex digit, 255 for any other byte. *)
Definition xvalue (c : ascii) : N :=
  let n := N_of_ascii c in
  if (48 <=? n)%N && (n <=? 57)%N then (n - 48)%N
  else if (97 <=? n)%N && (n <=? 102)%N then (n - 87)%N
  else if (65 <=? n)%N && (n <=? 70)%N then (n - 55)%N
  else 255%N.

(** [byte(v)]: truncation to 8 bits. *)
Definition byte_of_N (v : N) : byte :=
  match Byte.of_N (N.land v 255) with Some b => b | None => x00 end.

(** [func xtob(x1, x2 byte) (byte, bool)] *)
Definition xtob (x1 x2 : ascii) : byte * bool :=
  let b1 := xvalue x1 in
  let b2 := xvalue x2 in
  (byte_of_N (N.lor (N.shiftl b1 4) b2),
   negb (N.eqb b1 255) && negb (N.eqb b2 255)).

(** [s[i]]; every index used below is checked against [len(s)] first. *)
Definition at_ (s : string) (i : nat) : ascii :=
  match String.get i s with Some c => c | None => "000"%char end.

(** Decode 16 bytes, byte [i] read by [rd i]; [None] as soon as one fails. *)
Definition decode16 (rd : nat -> byte * bool) : option UUID :=
  let get i := rd i in
  if forallb (fun i => snd (get i)) (seq 0 16) then
    Some (mkUUID (fst (get 0)) (fst (get 1)) (fst (get 2)) (fst (get 3))
                 (fst (get 4)) (fst (get 5)) (fst (get 6)) (fst (get 7))
                 (fst (get 8)) (fst (get 9)) (fst (get 10)) (fst (get 11))
                 (fst (get 12)) (fst (get 13)) (fst (get 14)) (fst (get 15)))
  else None.

(** The offsets [0, 2, 4, 6, 9, 11, 14, 16, 19, 21, 24, 26, ..., 34]. *)
Definition offsets : list nat :=
  [0; 2; 4; 6; 9; 11; 14; 16; 19; 21; 24; 26; 28; 30; 32; 34]%nat.

(** The 36-byte form once the prefix is removed. *)
Definition parse36 (s : string) : option UUID :=
  if negb (Ascii.eqb (at_ s 8) "-") || negb (Ascii.eqb (at_ s 13) "-")
     || negb (Ascii.eqb (at_ s 18) "-") || negb (Ascii.eqb (at_ s 23) "-")
  then None
  else decode16 (fun i => let x := nth i offsets 0%nat in
                          xtob (at_ s x) (at_ s (S x))).

(** The errors [Parse] returns: [invalidLengthError{len(s)}], whose
    [Error()] is ["invalid UUID length: %d"]; the error of
    [fmt.Errorf("invalid urn prefix: %q", s[:9])], kept as the prefix
    its message quotes; and [errors.New("invalid UUID format")]. *)
Inductive ParseError :=
| InvalidLength (len : nat)
| InvalidURNPrefix (prefix : string)
| InvalidFormat.

(** A failed decoding of the 36 (or 32) bytes is ["invalid UUID format"]. *)
Definition or_format (o : option UUID) : UUID + ParseError :=
  match o with Some u => inl u | None => inr InvalidFormat end.

(** [func Parse(s string) (UUID, error)] *)
Definition Parse_full (s : string) : UUID + ParseError :=
  match String.length s with
  | 36 => or_format (parse36 s)
  | 45 => if equal_fold (substring 0 9 s) "urn:uuid:"
          then or_format (parse36 (substring 9 36 s))
          else inr (InvalidURNPrefix (substring 0 9 s))
  | 38 => or_format (parse36 (substring 1 37 s))
  | 32 => or_format (decode16 (fun i => xtob (at_ s (2 * i)) (at_ s (S (2 * i)))))
  | n => inr (InvalidLength n)
  end%nat.

(** The UUID of [Parse]; [None] is a non-nil error. *)
Definition Parse (s : string) : option UUID :=
  match Parse_full s with inl u => Some u | inr _ => None end.


End UUIDs.

(* ================================================================== *)
(** ** time.Time and [Format(time.DateOnly)] *)

Module GoTime.

(** A [time.Time] read back from a [timestamp] column: the wall-clock
    fields in its location. *)
Record Time := mkTime {
  year : Z; month : Z; day : Z;
  hour : Z; minute : Z; second : Z; nanosecond : Z }.

(** The calendar date of a time, ignoring its time of day. *)
Definition date (t : Time) : Z * Z * Z := (year t, month t, day t).

Definition digit (n : N) : ascii := ascii_of_N (48 + n).

(** The decimal digits of [u], least significant first. *)
Fixpoint rdigits (fuel : nat) (u : N) : list ascii :=
  match fuel with
  | O => []
  | S f => digit (u mod 10) ::
           (if (u <? 10)%N then [] else rdigits f (u / 10))
  end.

(** [func appendInt(b []byte, x int, width int) []byte]: an optional
    ['-'], then [|x|] in decimal, left-padded with ['0'] to [width]. *)
Definition appendInt (b : list ascii) (x : Z) (width : nat) : list ascii :=
  let u := Z.to_N (Z.abs x) in
  let ds := rdigits (S (N.to_nat u)) u in
  (b ++ (if (x <? 0)%Z then ["-"%char] else [])
     ++ rev (ds ++ repeat "0"%char (width - length ds)))%list.

(** [t.Format(time.DateOnly)], layout ["2006-01-02"]:
    [stdLongYear], ['-'], [stdZeroMonth], ['-'], [stdZeroDay]. *)
Definition FormatDateOnly (t : Time) : string :=
  let b := appendInt [] (year t) 4 in
  let b := (b ++ ["-"%char])%list in
  let b := appendInt b (month t) 2 in
  let b := (b ++ ["-"%char])%list in
  let b := appendInt b (day t) 2 in
  string_of_list_ascii b.

(** A [time.Time] always has a month in 1..12 and a day in 1..31. *)
Definition valid_time (t : Time) : bool :=
  (1 <=? month t)%Z && (month t <=? 12)%Z && (1 <=? day t)%Z && (day t <=? 31)%Z.

(** Decimal value of a digit list, least significant first. *)
Fixpoint rval (l : list ascii) : N :=
  match l with
  | [] => 0
  | c :: l' => (N_of_ascii c - 48) + 10 * rval l'
  end%N.

(** The digits and padding of [appendInt], least significant first. *)
Definition padded (x : Z) (width : nat) : list ascii :=
  let u := Z.to_N (Z.abs x) in
  let ds := rdigits (S (N.to_nat u)) u in
  (ds ++ repeat "0"%char (width - length ds))%list.

Definition sign (x : Z) : list ascii :=
  if (x <? 0)%Z then ["-"%char] else [].


End GoTime.

(* ================================================================== *)
(** ** Entities, requests, responses and the world the handlers run in *)

Module Journey.
Import GoTime.

Abbreviation UUID := UUIDs.UUID.

(** [pgstore.Trip] *)
Record Trip := mkTrip {
  trip_ID : UUID;
  trip_Destination : string;
  trip_OwnerEmail : string;
  trip_OwnerName : string;
  trip_StartsAt : Time;
  trip_EndsAt : Time;
  trip_IsConfirmed : bool }.

(** [pgstore.Participant] *)
Record Participant := mkParticipant {
  participant_ID : UUID;
  participant_TripID : UUID;
  participant_Email : string;
  participant_IsConfirmed : bool }.

(** [pgstore.Activity] *)
Record Activity := mkActivity {
  activity_ID : UUID;
  activity_TripID : UUID;
  activity_Title : string;
  activity_OccursAt : Time }.

(** [spec.CreateTripRequest] *)
Record CreateTripRequest := mkCreateTripRequest {
  ctr_Destination : string;
  ctr_EmailsToInvite : list string;
  ctr_EndsAt : Time;
  ctr_OwnerEmail : string;
  ctr_OwnerName : string;
  ctr_StartsAt : Time }.

(** [spec.UpdateTripRequest] *)
Record UpdateTripRequest := mkUpdateTripRequest {
  utr_Destination : string;
  utr_EndsAt : Time;
  utr_StartsAt : Time }.

(** [spec.CreateActivityRequest] *)
Record CreateActivityRequest := mkCreateActivityRequest {
  car_OccursAt : Time;
  car_Title : string }.

(** [pgstore.UpdateTripParams] *)
Record UpdateTripParams := mkUpdateTripParams {
  utp_ID : UUID;
  utp_Destination : string;
  utp_StartsAt : Time;
  utp_EndsAt : Time;
  utp_IsConfirmed : bool }.

(** [pgstore.CreateActivityParams] *)
Record CreateActivityParams := mkCreateActivityParams {
  cap_TripID : UUID;
  cap_Title : string;
  cap_OccursAt : Time }.

(** The errors the handlers can observe: [pgx.ErrNoRows], a
    [*pgconn.PgError] with its SQLSTATE code, a failed connection, and
    the wrapped errors of the mailer. *)
Inductive error :=
| ErrNoRows
| PgError (code : string)
| ErrConnection
| MailError (msg : string).

Definition Error (e : error) : string :=
  match e with
  | ErrNoRows => "no rows in result set"
  | PgError code => "ERROR (SQLSTATE " ++ code ++ ")"
  | ErrConnection => "failed to connect"
  | MailError msg => msg
  end.

(** [errors.Is(err, pgx.ErrNoRows)] *)
Definition is_ErrNoRows (e : error) : bool :=
  match e with ErrNoRows => true | _ => false end.

(** The database behind [pgstore]: the four tables, whether it answers,
    and the identifiers [gen_random_uuid()] hands out, in order. *)
Record DB := mkDB {
  db_up : bool;
  db_trips : list Trip;
  db_participants : list Participant;
  db_activities : list Activity;
  db_uuids : nat -> UUID;
  db_next_uuid : nat }.

(** An e-mail as built by [mail.NewMsg]. *)
Record Msg := mkMsg {
  msg_From : string;
  msg_To : string;
  msg_Subject : string;
  msg_Body : string }.

(** A [zap.Field]: [zap.String(key, s)], or [zap.Error(err)], which
    holds the error value itself; the encoder calls its [Error()] when the
    entry is written. *)
Inductive Field :=
| FString (s : string)
| FError (e : error)
| FUUIDError (e : UUIDs.ParseError).

(** A [zap] log entry: message and fields, keyed. *)
Record LogEntry := mkLogEntry {
  log_msg : string;
  log_fields : list (string * Field) }.

(** The body of a [go] statement. *)
Inductive Task :=
| GoSendConfirmTripEmailToTripOwner (tripID : UUID).

(** The world: the database, the log, the mail transport (the outcome of
    each [DialAndSend] in order, the mails delivered) and the goroutine
    scheduler (for each [go], whether the goroutine runs to completion
    before the spawning handler goes on; the goroutines spawned; those
    still waiting to run). *)
Record World := mkWorld {
  w_db : DB;
  w_log : list LogEntry;
  w_net : nat -> bool;
  w_dials : nat;
  w_outbox : list Msg;
  w_sched : nat -> bool;
  w_spawned : list Task;
  w_pending : list Task }.

Definition set_db (d : DB) (w : World) : World :=
  mkWorld d (w_log w) (w_net w) (w_dials w) (w_outbox w)
          (w_sched w) (w_spawned w) (w_pending w).

(** A state monad over the world. *)
Definition M (A : Type) : Type := World -> A * World.

Definition ret {A} (a : A) : M A := fun w => (a, w).

Definition bind {A B} (m : M A) (k : A -> M B) : M B :=
  fun w => let (a, w') := m w in k a w'.

Notation "x <- m ;; k" := (bind m (fun x => k))
  (at level 61, m at next level, right associativity).
Notation "' p <- m ;; k" := (bind m (fun x => match x with p => k end))
  (at level 61, p pattern, m at next level, right associativity).
Notation "m ;; k" := (bind m (fun _ => k))
  (at level 61, right associativity).

(** [api.logger.Error(msg, fields...)] *)
Definition log_Error (msg : string) (fields : list (string * Field)) : M unit :=
  fun w => (tt, mkWorld (w_db w) (w_log w ++ [mkLogEntry msg fields])
                        (w_net w) (w_dials w) (w_outbox w)
                        (w_sched w) (w_spawned w) (w_pending w)).

(** The HTTP response bodies of [spec]. *)
Inductive Body :=
| BodyError (Message : string)
| BodyCreateTrip (TripID : string)
| BodyTripDetails (Destination : string) (EndsAt : Time) (ID : string)
                  (IsConfirmed : bool) (StartsAt : Time)
| BodyActivities (Activities : list (Time * list (string * string * Time)))
| BodyCreateActivity (ActivityID : string)
| BodyNone.

(** [*spec.Response] *)
Record Response := mkResponse { Code : Z; RBody : Body }.

(** What a handler does: return a response, or panic. *)
Inductive Outcome :=
| Return (r : Response)
| Panic (msg : string).

Definition JSON400 (msg : string) : Outcome := Return (mkResponse 400 (BodyError msg)).
Definition JSON204 : Outcome := Return (mkResponse 204 BodyNone).

(* ------------------------------------------------------------------ *)
(** *** The entity store *)

Definition find_trip (db : DB) (id : UUID) : option Trip :=
  find (fun t => UUIDs.UUID_eqb (trip_ID t) id) (db_trips db).

Definition find_participant (db : DB) (id : UUID) : option Participant :=
  find (fun p => UUIDs.UUID_eqb (participant_ID p) id) (db_participants db).

(** Modelled from the spec: [pgstore.Queries.GetTrip] (section 4.2,
    get-by-ID): the full record, or the "no rows" sentinel. *)
Definition pg_GetTrip (db : DB) (id : UUID) : Trip + error :=
  if db_up db then
    match find_trip db id with Some t => inl t | None => inr ErrNoRows end
  else inr ErrConnection.

(** Modelled from the spec: [pgstore.Queries.GetParticipant]. *)
Definition pg_GetParticipant (db : DB) (id : UUID) : Participant + error :=
  if db_up db then
    match find_participant db id with Some p => inl p | None => inr ErrNoRows end
  else inr ErrConnection.

(** Modelled from the spec: [pgstore.Queries.ConfirmParticipant], the
    update setting [is_confirmed] of the participant with this ID. *)
Definition pg_ConfirmParticipant (db : DB) (id : UUID) : DB * option error :=
  if db_up db then
    (mkDB (db_up db) (db_trips db)
       (map (fun p => if UUIDs.UUID_eqb (participant_ID p) id
                      then mkParticipant (participant_ID p) (participant_TripID p)
                                         (participant_Email p) true
                      else p) (db_participants db))
       (db_activities db) (db_uuids db) (db_next_uuid db), None)
  else (db, Some ErrConnection).

(** Modelled from the spec: [pgstore.Queries.UpdateTrip], writing every
    column of [UpdateTripParams] in the row with its ID. *)
Definition pg_UpdateTrip (db : DB) (arg : UpdateTripParams) : DB * option error :=
  if db_up db then
    (mkDB (db_up db)
       (map (fun t => if UUIDs.UUID_eqb (trip_ID t) (utp_ID arg)
                      then mkTrip (trip_ID t) (utp_Destination arg) (trip_OwnerEmail t)
                                  (trip_OwnerName t) (utp_StartsAt arg) (utp_EndsAt arg)
                                  (utp_IsConfirmed arg)
                      else t) (db_trips db))
       (db_participants db) (db_activities db) (db_uuids db) (db_next_uuid db), None)
  else (db, Some ErrConnection).

Definition trip_exists (db : DB) (id : UUID) : bool :=
  existsb (fun t => UUIDs.UUID_eqb (trip_ID t) id) (db_trips db).

Definition participant_exists (db : DB) (id : UUID) : bool :=
  existsb (fun p => UUIDs.UUID_eqb (participant_ID p) id) (db_participants db).

(** Modelled from the spec: [pgstore.Queries.CreateTrip] (section 4.1
    and 4.2): one atomic transaction inserting the trip, not confirmed,
    with a fresh primary key, and one unconfirmed participant per e-mail
    to invite; a primary-key collision (SQLSTATE 23505) rolls it back. *)
Definition pg_CreateTrip (db : DB) (req : CreateTripRequest) : DB * (UUID * option error) :=
  if negb (db_up db) then (db, (UUIDs.Nil, Some ErrConnection)) else
  let n := db_next_uuid db in
  let id := db_uuids db n in
  let emails := ctr_EmailsToInvite req in
  let pids := map (fun i => db_uuids db (S n + i)) (seq 0 (length emails)) in
  if trip_exists db id || existsb (participant_exists db) pids
  then (db, (UUIDs.Nil, Some (PgError "23505")))
  else
    let trip := mkTrip id (ctr_Destination req) (ctr_OwnerEmail req) (ctr_OwnerName req)
                       (ctr_StartsAt req) (ctr_EndsAt req) false in
    let ps := map (fun '(pid, email) => mkParticipant pid id email false)
                  (combine pids emails) in
    (mkDB (db_up db) (trip :: db_trips db) (db_participants db ++ ps)
          (db_activities db) (db_uuids db) (S n + length emails), (id, None)).

(** Modelled from the spec: [pgstore.Queries.GetTripActivities]
    (list-by-trip-ID). *)
Definition pg_GetTripActivities (db : DB) (tripID : UUID) : list Activity + error :=
  if db_up db then
    inl (filter (fun a => UUIDs.UUID_eqb (activity_TripID a) tripID) (db_activities db))
  else inr ErrConnection.

(** Modelled from the spec: [pgstore.Queries.CreateActivity] (section
    4.2): an insert with a fresh primary key, rejected by the foreign key
    to [trips] (SQLSTATE 23503) when the trip does not exist. *)
Definition pg_CreateActivity (db : DB) (arg : CreateActivityParams) : DB * (UUID * option error) :=
  if negb (db_up db) then (db, (UUIDs.Nil, Some ErrConnection)) else
  if negb (trip_exists db (cap_TripID arg)) then (db, (UUIDs.Nil, Some (PgError "23503"))) else
  let n := db_next_uuid db in
  let id := db_uuids db n in
  if existsb (fun a => UUIDs.UUID_eqb (activity_ID a) id) (db_activities db)
  then (db, (UUIDs.Nil, Some (PgError "23505")))
  else (mkDB (db_up db) (db_trips db) (db_participants db)
             (db_activities db ++ [mkActivity id (cap_TripID arg) (cap_Title arg) (cap_OccursAt arg)])
             (db_uuids db) (S n), (id, None)).

(** Modelled from the spec: [pgstore.Queries.GetParticipants]
    (list-by-trip-ID), in table order. *)
Definition pg_GetParticipants (db : DB) (tripID : UUID) : list Participant + error :=
  if db_up db then
    inl (filter (fun p => UUIDs.UUID_eqb (participant_TripID p) tripID) (db_participants db))
  else inr ErrConnection.

(** The store calls of the handlers, on the world's database. *)
Definition query {A} (f : DB -> A) : M A := fun w => (f (w_db w), w).

Definition exec {A} (f : DB -> DB * A) : M A :=
  fun w => let (d, a) := f (w_db w) in (a, set_db d w).

(* ------------------------------------------------------------------ *)
(** *** The API *)

(** The handlers' collaborators: [validator.Struct] on each request type
    ([Some] error message when the struct tags reject the value) and the
    [mailer] interface. The store is [pgstore] above. *)
Record API := mkAPI {
  validate_CreateTripRequest : CreateTripRequest -> option string;
  validate_UpdateTripRequest : UpdateTripRequest -> option string;
  validate_CreateActivityRequest : CreateActivityRequest -> option string;
  mailer_SendConfirmTripEmailToTripOwner : UUID -> M (option error) }.

(** The goroutine of [PostTrips]. *)
Definition run_task (api : API) (t : Task) : M unit :=
  match t with
  | GoSendConfirmTripEmailToTripOwner tripID =>
      err <- mailer_SendConfirmTripEmailToTripOwner api tripID ;;
      match err with
      | Some e => log_Error "failed to send email on PostTrips"
                    [("error", FError e); ("trip_id", FString (UUIDs.String tripID))]
      | None => ret tt
      end
  end.

(** [go f()]: recorded as spawned; the scheduler either runs it to
    completion now or leaves it pending. *)
Definition go (api : API) (t : Task) : M unit :=
  fun w =>
    let spawned := (w_spawned w ++ [t])%list in
    if w_sched w (length (w_spawned w)) then
      run_task api t (mkWorld (w_db w) (w_log w) (w_net w) (w_dials w) (w_outbox w)
                              (w_sched w) spawned (w_pending w))
    else
      (tt, mkWorld (w_db w) (w_log w) (w_net w) (w_dials w) (w_outbox w)
                   (w_sched w) spawned (w_pending w ++ [t])).

(** [PATCH /participants/{participantId}/confirm] *)
Definition PatchParticipantsParticipantIDConfirm (api : API) (participantID : string)
  : M Outcome :=
  match UUIDs.Parse participantID with
  | None => ret (JSON400 "uuid inválido")
  | Some id =>
    r <- query (fun db => pg_GetParticipant db id) ;;
    match r with
    | inr err =>
        if is_ErrNoRows err then ret (JSON400 "participante não encontrado")
        else
          log_Error "failed to get participant"
            [("error", FError err); ("participant_id", FString participantID)] ;;
          ret (JSON400 "something went wrong, try again")
    | inl participant =>
        if participant_IsConfirmed participant then
          ret (JSON400 "participante já confirmado")
        else
          e <- exec (fun db => pg_ConfirmParticipant db id) ;;
          match e with
          | Some err =>
              log_Error "failed to confirm participant"
                [("error", FError err); ("participant_id", FString participantID)] ;;
              ret (JSON400 "something went wrong, try again")
          | None => ret JSON204
          end
    end
  end.

(** [POST /trips]; [body] is the result of [json.NewDecoder(r.Body).Decode],
    [None] when it fails. *)
Definition PostTrips (api : API) (body : option CreateTripRequest) : M Outcome :=
  match body with
  | None => ret (JSON400 "invalid JSON")
  | Some body =>
    match validate_CreateTripRequest api body with
    | Some msg => ret (JSON400 ("invalid input: " ++ msg))
    | None =>
      '(tripID, err) <- exec (fun db => pg_CreateTrip db body) ;;
      go api (GoSendConfirmTripEmailToTripOwner tripID) ;;
      match err with
      | Some e =>
          log_Error "failed to create trip" [("error", FError e)] ;;
          ret (JSON400 "something went wrong, try again")
      | None => ret (Return (mkResponse 201 (BodyCreateTrip (UUIDs.String tripID))))
      end
    end
  end.

(** [GET /trips/{tripId}] *)
Definition GetTripsTripID (api : API) (tripID : string) : M Outcome :=
  match UUIDs.Parse_full tripID with
  | inr err =>
      log_Error "failed to parse trip id" [("error", FUUIDError err); ("trip_id", FString tripID)] ;;
      ret (JSON400 "invalid trip id")
  | inl id =>
    r <- query (fun db => pg_GetTrip db id) ;;
    match r with
    | inr err =>
        if is_ErrNoRows err then ret (JSON400 "trip not found")
        else
          log_Error "failed to get trip" [("error", FError err); ("trip_id", FString tripID)] ;;
          ret (JSON400 "something went wrong, try again")
    | inl trip =>
        ret (Return (mkResponse 200
               (BodyTripDetails (trip_Destination trip) (trip_EndsAt trip) tripID
                                (trip_IsConfirmed trip) (trip_StartsAt trip))))
    end
  end.

(** [PUT /trips/{tripId}] *)
Definition PutTripsTripID (api : API) (tripID : string) (body : option UpdateTripRequest)
  : M Outcome :=
  match UUIDs.Parse_full tripID with
  | inr err =>
      log_Error "failed to parse trip id" [("error", FUUIDError err); ("trip_id", FString tripID)] ;;
      ret (JSON400 "invalid trip id")
  | inl id =>
    r <- query (fun db => pg_GetTrip db id) ;;
    match r with
    | inr err =>
        if is_ErrNoRows err then ret (JSON400 "trip not found")
        else
          log_Error "failed to get trip" [("error", FError err); ("trip_id", FString tripID)] ;;
          ret (JSON400 "something went wrong, try again")
    | inl trip =>
      match body with
      | None => ret (JSON400 "invalid JSON")
      | Some body =>
        match validate_UpdateTripRequest api body with
        | Some msg => ret (JSON400 ("invalid input: " ++ msg))
        | None =>
          e <- exec (fun db => pg_UpdateTrip db
                       (mkUpdateTripParams id (utr_Destination body) (utr_StartsAt body)
                                           (utr_EndsAt body) (trip_IsConfirmed trip))) ;;
          match e with
          | Some err =>
              log_Error "failed to update trip" [("error", FError err)] ;;
              ret (JSON400 "something went wrong, try again")
          | None => ret JSON204
          end
        end
      end
    end
  end.

(** [time.Parse(time.DateOnly, s)] with its error dropped: four-digit
    year, two-digit month in 1..12, two-digit day within the month,
    midnight UTC; the zero [Time{}] (0001-01-01) when [s] does not fit. *)
Definition digit_of (c : ascii) : option Z :=
  let n := N_of_ascii c in
  if (48 <=? n)%N && (n <=? 57)%N then Some (Z.of_N (n - 48)) else None.

Fixpoint getnum (cs : list ascii) (acc : Z) : option Z :=
  match cs with
  | [] => Some acc
  | c :: cs' => match digit_of c with
                | Some d => getnum cs' (10 * acc + d)%Z
                | None => None
                end
  end.

Definition isLeap (y : Z) : bool :=
  ((y mod 4 =? 0) && (negb (y mod 100 =? 0) || (y mod 400 =? 0)))%Z.

Definition daysIn (m y : Z) : Z :=
  (if m =? 2 then (if isLeap y then 29 else 28)
   else if (m =? 4) || (m =? 6) || (m =? 9) || (m =? 11) then 30 else 31)%Z.

Definition ZeroTime : Time := mkTime 1 1 1 0 0 0 0.

Definition ParseDateOnly (s : string) : Time :=
  match list_ascii_of_string s with
  | [y1; y2; y3; y4; s1; m1; m2; s2; d1; d2] =>
      match getnum [y1; y2; y3; y4] 0, getnum [m1; m2] 0, getnum [d1; d2] 0 with
      | Some y, Some m, Some d =>
          if Ascii.eqb s1 "-" && Ascii.eqb s2 "-" && (1 <=? m) && (m <=? 12)
             && (1 <=? d) && (d <=? daysIn m y)
          then mkTime y m d 0 0 0 0 else ZeroTime
      | _, _, _ => ZeroTime
      end
  | _ => ZeroTime
  end%Z.

(** [groupedActivities[date] = append(groupedActivities[date], activity)]
    on the Go map [map[string][]pgstore.Activity], kept as an association
    list with one entry per key. *)
Fixpoint map_append (m : list (string * list Activity)) (k : string) (a : Activity)
  : list (string * list Activity) :=
  match m with
  | [] => [(k, [a])]
  | (k', v) :: m' =>
      if String.eqb k k' then (k', (v ++ [a])%list) :: m'
      else (k', v) :: map_append m' k a
  end.

(** The first loop of [GetTripsTripIDActivities]. *)
Definition groupActivities (activities : list Activity) : list (string * list Activity) :=
  fold_left (fun m a => map_append m (FormatDateOnly (activity_OccursAt a)) a)
            activities [].

(** [spec.GetTripActivitiesResponseInnerArray] of one activity. *)
Definition inner (act : Activity) : string * string * Time :=
  (UUIDs.String (activity_ID act), activity_Title act, activity_OccursAt act).

(** The second loop, over the map entries in the order [range] visits them. *)
Definition outputActivities (entries : list (string * list Activity))
  : list (Time * list (string * string * Time)) :=
  map (fun '(dateStr, actsOnDate) => (ParseDateOnly dateStr, map inner actsOnDate))
      entries.

(** [GET /trips/{tripId}/activities]. Go's [range] over a map visits its
    entries in an unspecified order: [order] is that order, a permutation
    of the entries. *)
Definition GetTripsTripIDActivities
  (order : list (string * list Activity) -> list (string * list Activity))
  (api : API) (tripID : string) : M Outcome :=
  match UUIDs.Parse_full tripID with
  | inr err =>
      log_Error "failed to parse trip id" [("error", FUUIDError err); ("trip_id", FString tripID)] ;;
      ret (JSON400 "invalid trip id")
  | inl id =>
    r <- query (fun db => pg_GetTripActivities db id) ;;
    match r with
    | inr err =>
        log_Error "failed to get trip activities" [("error", FError err); ("trip_id", FString tripID)] ;;
        if is_ErrNoRows err then ret (JSON400 "trip not found")
        else ret (JSON400 "something went wrong, try again")
    | inl activities =>
        ret (Return (mkResponse 200
               (BodyActivities (outputActivities (order (groupActivities activities))))))
    end
  end.

(** [POST /trips/{tripId}/activities] *)
Definition PostTripsTripIDActivities (api : API) (tripID : string)
  (body : option CreateActivityRequest) : M Outcome :=
  match UUIDs.Parse_full tripID with
  | inr err =>
      log_Error "failed to parse trip id" [("error", FUUIDError err); ("trip_id", FString tripID)] ;;
      ret (JSON400 "invalid trip id")
  | inl id =>
    match body with
    | None => ret (JSON400 "invalid JSON")
    | Some body =>
      match validate_CreateActivityRequest api body with
      | Some msg => ret (JSON400 ("invalid input: " ++ msg))
      | None =>
        '(activityID, err) <- exec (fun db => pg_CreateActivity db
                                   (mkCreateActivityParams id (car_Title body) (car_OccursAt body))) ;;
        match err with
        | Some e =>
            if is_ErrNoRows e then ret (JSON400 "trip not found")
            else
              log_Error "failed to create activity" [("error", FError e)] ;;
              ret (JSON400 "something went wrong, try again")
        | None => ret (Return (mkResponse 201 (BodyCreateActivity (UUIDs.String activityID))))
        end
      end
    end
  end.

(** [GET /trips/{tripId}/confirm]: [panic("not implemented")]. *)
Definition GetTripsTripIDConfirm (api : API) (tripID : string) : M Outcome :=
  ret (Panic "not implemented").

End Journey.

(* ================================================================== *)
(** ** internal/mailer/mailpit *)

Module MailPit.
Import GoTime Journey.

Section MailPit.

(** [net/mail.ParseAddress], through which go-mail's [msg.From] and
    [msg.To] accept or reject an address. *)
Variable ParseAddress : string -> bool.

Definition From : string := "mailpit@journey.com".

Definition nl : string := String (ascii_of_nat 10) EmptyString.

(** [mail.NewClient(host, mail.WithTLSPortPolicy(mail.NoTLS), mail.WithPort(port))]:
    fails on an empty host or a port outside 1..65535. *)
Definition NewClient (host : string) (port : Z) : option error :=
  if String.eqb host "" then Some (MailError "no hostname given")
  else if (port <? 1)%Z || (65535 <? port)%Z then Some (MailError "invalid port number")
  else None.

(** [client.DialAndSend(msg)]: the transport's outcome for this dial. *)
Definition DialAndSend (m : Msg) : M (option error) :=
  fun w =>
    if w_net w (w_dials w) then
      (None, mkWorld (w_db w) (w_log w) (w_net w) (S (w_dials w))
                     (w_outbox w ++ [m]) (w_sched w) (w_spawned w) (w_pending w))
    else
      (Some (MailError "dial and send failed"),
       mkWorld (w_db w) (w_log w) (w_net w) (S (w_dials w))
               (w_outbox w) (w_sched w) (w_spawned w) (w_pending w)).

Definition wrap (ctx : string) (e : error) : option error :=
  Some (MailError ("mailpit: " ++ ctx ++ ": " ++ Error e)).

(** [func (m MailPit) SendConfirmTripEmailToTripOwner(tripId uuid.UUID) error] *)
Definition SendConfirmTripEmailToTripOwner (tripId : UUID) : M (option error) :=
  r <- query (fun db => pg_GetTrip db tripId) ;;
  match r with
  | inr err => ret (wrap "failed to get trip for SendConfirmTripEmailToTripOwner" err)
  | inl trip =>
    if negb (ParseAddress From) then
      ret (wrap "failed to set From in email for SendConfirmTripEmailToTripOwner"
                (MailError "invalid address"))
    else if negb (ParseAddress (trip_OwnerEmail trip)) then
      ret (wrap "failed to set To in email for SendConfirmTripEmailToTripOwner"
                (MailError "invalid address"))
    else
      let body := nl ++ "    Olá, " ++ trip_OwnerName trip ++ "!" ++ nl
                  ++ "    A sua viagem para " ++ trip_Destination trip
                  ++ " que começa no dia " ++ FormatDateOnly (trip_StartsAt trip)
                  ++ " precisa ser confirmada." ++ nl
                  ++ "    Clique no botão abaixo para confirmar." ++ nl ++ "    " in
      match NewClient "mailpit" 1025 with
      | Some err =>
          ret (wrap "failed to create mail client for SendConfirmTripEmailToTripOwner" err)
      | None =>
          e <- DialAndSend (mkMsg From (trip_OwnerEmail trip) "Confirme sua viagem" body) ;;
          match e with
          | Some err => ret (wrap "failed to send email for SendConfirmTripEmailToTripOwner" err)
          | None => ret None
          end
      end
  end.

(** The message sent to one participant. *)
Definition confirmedMsg (p : Participant) : Msg :=
  mkMsg From (participant_Email p) "Confirme sua viagem" "Você deve confirmar a sua viagem".

(** The [for _, participant := range participants] loop. *)
Fixpoint sendLoop (participants : list Participant) : M (option error) :=
  match participants with
  | [] => ret None
  | participant :: rest =>
    if negb (ParseAddress From) then
      ret (wrap "failed to set From in email for SendTripConfirmedEmails"
                (MailError "invalid address"))
    else if negb (ParseAddress (participant_Email participant)) then
      ret (wrap "failed to set To in email for SendTripConfirmedEmails"
                (MailError "invalid address"))
    else
      e <- DialAndSend (confirmedMsg participant) ;;
      match e with
      | Some err => ret (wrap "failed to send email for SendTripConfirmedEmails" err)
      | None => sendLoop rest
      end
  end.

(** [func (m MailPit) SendTripConfirmedEmails(tripId uuid.UUID) error] *)
Definition SendTripConfirmedEmails (tripId : UUID) : M (option error) :=
  r <- query (fun db => pg_GetParticipants db tripId) ;;
  match r with
  | inr err => ret (wrap "failed to get trip participants for SendTripConfirmedEmails" err)
  | inl participants =>
    match NewClient "mailpit" 1025 with
    | Some err => ret (wrap "failed to create mail client for SendTripConfirmedEmails" err)
    | None => sendLoop participants
    end
  end.

(** Whether the send to [p], made as the [i]-th dial after the state [w],
    goes through: [msg.From], [msg.To] and [client.DialAndSend] all succeed. *)
Definition attempt_ok (w : World) (i : nat) (p : Participant) : bool :=
  ParseAddress From && ParseAddress (participant_Email p) && w_net w (w_dials w + i).

End MailPit.

End MailPit.

(* ================================================================== *)
(** ** Concrete inputs *)

Module Examples.
Import GoTime Journey.

Definition uuid_n (n : nat) : UUID :=
  UUIDs.mkUUID x00 x00 x00 x00 x00 x00 x00 x00 x00 x00 x00 x00 x00 x00 x00
               (UUIDs.byte_of_N (N.of_nat n)).

(** Validators accepting every request and a mailer that always succeeds. *)
Definition api0 : API :=
  mkAPI (fun _ => None) (fun _ => None) (fun _ => None) (fun _ => ret None).

Definition trip0 : Trip :=
  mkTrip (uuid_n 1) "Paris" "a@x.com" "A"
         (mkTime 2025 6 1 0 0 0 0) (mkTime 2025 6 10 0 0 0 0) false.

Definition participant0 : Participant :=
  mkParticipant (uuid_n 2) (uuid_n 1) "b@x.com" false.

Definition db0 : DB := mkDB true [trip0] [participant0] [] uuid_n 10.

(** The database is unreachable. *)
Definition db_down : DB := mkDB false [] [] [] uuid_n 10.

(** A world on [d]: every delivery succeeds, goroutines wait. *)
Definition world (d : DB) : World :=
  mkWorld d [] (fun _ => true) 0 [] (fun _ => false) [] [].

Definition req0 : CreateTripRequest :=
  mkCreateTripRequest "Paris" ["b@x.com"] (mkTime 2025 6 10 0 0 0 0) "a@x.com" "A"
                      (mkTime 2025 6 1 0 0 0 0).

(** Two activities of [trip0] on the same day, at different times. *)
Definition act1 : Activity :=
  mkActivity (uuid_n 3) (uuid_n 1) "Museu" (mkTime 2025 6 2 9 30 0 0).

Definition act2 : Activity :=
  mkActivity (uuid_n 4) (uuid_n 1) "Jantar" (mkTime 2025 6 2 20 0 0 0).

Definition db1 : DB := mkDB true [trip0] [participant0] [act1; act2] uuid_n 10.

Definition activity_req0 : CreateActivityRequest :=
  mkCreateActivityRequest (mkTime 2025 6 2 9 30 0 0) "Museu".

(** Three participants of [trip0]. *)
Definition participant_b : Participant :=
  mkParticipant (uuid_n 5) (uuid_n 1) "c@x.com" true.

Definition participant_c : Participant :=
  mkParticipant (uuid_n 6) (uuid_n 1) "d@x.com" true.

Definition db3 : DB :=
  mkDB true [trip0] [participant0; participant_b; participant_c] [] uuid_n 10.

(** A world on [db3] whose second delivery fails. *)
Definition world3 : World :=
  mkWorld db3 [] (fun n => negb (Nat.eqb n 1)) 0 [] (fun _ => false) [] [].

End Examples.

(* ================================================================== *)
(** ** Auxiliary definitions for the statements and proofs *)

Module Specs.
Import GoTime Journey MailPit.

(** The participant row after [UPDATE participants SET is_confirmed = true
    WHERE id = $1]. *)
Definition confirm_one (id : UUID) (p : Participant) : Participant :=
  if UUIDs.UUID_eqb (participant_ID p) id
  then mkParticipant (participant_ID p) (participant_TripID p) (participant_Email p) true
  else p.

(** The trip row after [pgstore.Queries.UpdateTrip]. *)
Definition update_one (arg : UpdateTripParams) (t : Trip) : Trip :=
  if UUIDs.UUID_eqb (trip_ID t) (utp_ID arg)
  then mkTrip (trip_ID t) (utp_Destination arg) (trip_OwnerEmail t) (trip_OwnerName t)
              (utp_StartsAt arg) (utp_EndsAt arg) (utp_IsConfirmed arg)
  else t.

(** [m] leaves the store and the spawned goroutines as they are. *)
Definition reads_only {A} (m : M A) : Prop :=
  forall w, w_db (snd (m w)) = w_db w /\ w_spawned (snd (m w)) = w_spawned w.

(** The API as [main] wires it: the validators and the MailPit mailer. *)
Definition mailpit_api (ParseAddress : string -> bool)
  (v1 : CreateTripRequest -> option string) (v2 : UpdateTripRequest -> option string)
  (v3 : CreateActivityRequest -> option string) : API :=
  mkAPI v1 v2 v3 (SendConfirmTripEmailToTripOwner ParseAddress).

(** The transport and the scheduler of a world replaced. *)
Definition with_env (net sched : nat -> bool) (w : World) : World :=
  mkWorld (w_db w) (w_log w) net (w_dials w) (w_outbox w) sched (w_spawned w) (w_pending w).

(** [groupedActivities[k]]: the slice stored under [k], [nil] if none. *)
Definition lookup (k : string) (m : list (string * list Activity)) : list Activity :=
  match find (fun e => String.eqb (fst e) k) m with Some (_, v) => v | None => [] end.

(** The map key of an activity: its [OccursAt] formatted as [time.DateOnly]. *)
Definition key (a : Activity) : string := FormatDateOnly (activity_OccursAt a).

(** The MailPit wiring with validators accepting every request and every
    address accepted. *)
Definition api1 : API := mailpit_api (fun _ => true) (fun _ => None) (fun _ => None) (fun _ => None).

(** The midnight of the calendar date of [t]: what [time.Parse(time.DateOnly, _)]
    gives back for that date. *)
Definition midnight (t : Time) : Time := mkTime (year t) (month t) (day t) 0 0 0 0.

Definition same_date (t1 t2 : Time) : bool :=
  ((year t1 =? year t2) && (month t1 =? month t2) && (day t1 =? day t2))%Z.

(** A date [time.DateOnly] writes with a four-digit year and a real day of
    its month. *)
Definition real_date (t : Time) : bool :=
  ((0 <=? year t) && (year t <=? 9999) && (1 <=? month t) && (month t <=? 12)
   && (1 <=? day t) && (day t <=? daysIn (month t) (year t)))%Z.

End Specs.

(* ================================================================== *)
(** ** [GET /trips/{tripId}/links] *)

Module TripLinks.
Import Journey.

(** [pgstore.Link] *)
Record Link := mkLink {
  link_ID : UUID;
  link_TripID : UUID;
  link_Title : string;
  link_Url : string }.

(** [spec.GetLinksResponseArray] *)
Record GetLinksResponseArray := mkGetLinksResponseArray {
  gl_ID : string;
  gl_Title : string;
  gl_URL : string }.

(** The bodies [GetTripsTripIDLinks] answers with: [spec.Error] or
    [spec.GetLinksResponse]. *)
Inductive LinksBody :=
| LinksBodyError (Message : string)
| LinksBodyLinks (Links : list GetLinksResponseArray).

Record LinksResponse := mkLinksResponse { LCode : Z; LBody : LinksBody }.

Definition LinksJSON400 (msg : string) : LinksResponse :=
  mkLinksResponse 400 (LinksBodyError msg).

Section GetTripLinks.

(** The store interface's [GetTripLinks(ctx, tripID)]: its [pgstore]
    implementation is not in the repository, so it is left arbitrary. *)
Variable GetTripLinks : DB -> UUID -> list Link + error.

(** The [for _, link := range links] loop appending to [output.Links]. *)
Definition outputLinks (links : list Link) : list GetLinksResponseArray :=
  fold_left (fun out link =>
               (out ++ [mkGetLinksResponseArray (UUIDs.String (link_ID link))
                                                (link_Title link) (link_Url link)])%list)
            links [].

(** [GET /trips/{tripId}/links] *)
Definition GetTripsTripIDLinks (tripID : string) : M LinksResponse :=
  match UUIDs.Parse tripID with
  | None => ret (LinksJSON400 "invalid trip id")
  | Some id =>
    r <- query (fun db => GetTripLinks db id) ;;
    match r with
    | inr err =>
        if is_ErrNoRows err then ret (LinksJSON400 "trip not found")
        else
          log_Error "failed to get trip links" [("error", FError err); ("trip_id", FString tripID)] ;;
          ret (LinksJSON400 "something went wrong, try again")
    | inl links => ret (mkLinksResponse 200 (LinksBodyLinks (outputLinks links)))
    end
  end.

End GetTripLinks.

End TripLinks.

Module Examples2.
Import Journey Examples TripLinks.

(** Validators rejecting every request. *)
Definition api_reject : API :=
  mkAPI (fun _ => Some "bad") (fun _ => Some "bad") (fun _ => Some "bad") (fun _ => ret None).

Definition links0 : list Link :=
  [mkLink (uuid_n 5) (uuid_n 1) "Reserva" "https://x.com"].

End Examples2.

Module Specs2.
Import Journey.

(** [w'] is [w] with at most one line appended to the log. *)
Definition logs_only (w w' : World) : Prop :=
  exists l, (length l <= 1)%nat /\
    w' = mkWorld (w_db w) (w_log w ++ l) (w_net w) (w_dials w) (w_outbox w)
                 (w_sched w) (w_spawned w) (w_pending w).

(** [w] with one more log line. *)
Definition logged (w : World) (e : LogEntry) : World :=
  mkWorld (w_db w) (w_log w ++ [e]) (w_net w) (w_dials w) (w_outbox w)
          (w_sched w) (w_spawned w) (w_pending w).

End Specs2.

(* ================================================================== *)
(** * Proofs *)

Module UUIDFacts.
Import UUIDs.

Lemma xtob_hex2 (b : byte) :
  xtob (hextable (N.shiftr (Byte.to_N b) 4)) (hextable (N.land (Byte.to_N b) 15))
  = (b, true).
Proof. destruct b; vm_compute; reflexivity. Qed.

Lemma Parse_String (u : UUID) : Parse (String u) = Some u.
Proof.
  destruct u as [c0 c1 c2 c3 c4 c5 c6 c7 c8 c9 c10 c11 c12 c13 c14 c15].
  unfold Parse, Parse_full, or_format, parse36, decode16, String, hex2.
  cbn -[xtob hextable N.shiftr N.land Byte.to_N].
  rewrite !xtob_hex2. reflexivity.
Qed.

Lemma Parse_full_inl (s : string) (u : UUID) : Parse_full s = inl u -> Parse s = Some u.
Proof. unfold Parse. intros ->. reflexivity. Qed.

Lemma Parse_Some (s : string) (u : UUID) : Parse s = Some u -> Parse_full s = inl u.
Proof. unfold Parse. destruct (Parse_full s); congruence. Qed.

Lemma Parse_full_String (u : UUID) : Parse_full (String u) = inl u.
Proof. apply Parse_Some, Parse_String. Qed.

Lemma Parse_None (s : string) : Parse s = None -> exists e, Parse_full s = inr e.
Proof. unfold Parse. destruct (Parse_full s) as [u|e]; [discriminate|eauto]. Qed.

End UUIDFacts.

Module DateFacts.
Import GoTime.

Lemma digit_val (n : N) : (n < 10)%N -> (N_of_ascii (digit n) - 48 = n)%N.
Proof.
  intros H. unfold digit.
  rewrite N_ascii_embedding by lia. lia.
Qed.

Lemma rval_rdigits (f : nat) (u : N) :
  (u < 10 ^ N.of_nat f)%N -> rval (rdigits f u) = u.
Proof.
  revert u; induction f as [|f IH]; intros u Hu; cbn [rdigits rval].
  - simpl in Hu. lia.
  - rewrite digit_val by (apply N.mod_lt; lia).
    destruct (u <? 10)%N eqn:E.
    + apply N.ltb_lt in E. rewrite N.mod_small by lia. cbn [rval]. lia.
    + apply N.ltb_ge in E.
      rewrite IH.
      * pose proof (N.div_mod u 10 ltac:(lia)). lia.
      * rewrite Nat2N.inj_succ, N.pow_succ_r' in Hu.
        apply N.Div0.div_lt_upper_bound; lia.
Qed.

Lemma rval_zeros (l : list ascii) (k : nat) :
  rval (l ++ repeat "0"%char k)%list = rval l.
Proof.
  induction l as [|c l IH]; simpl.
  - induction k; simpl; [reflexivity|]. rewrite IHk. reflexivity.
  - rewrite IH. reflexivity.
Qed.

Lemma pow10_large (n : nat) : (N.of_nat n < 10 ^ N.of_nat (S n))%N.
Proof.
  induction n as [|n IH].
  - simpl. lia.
  - rewrite !Nat2N.inj_succ in *. rewrite (N.pow_succ_r' 10 (N.succ _)). lia.
Qed.

Lemma rval_digits_of (u : N) : rval (rdigits (S (N.to_nat u)) u) = u.
Proof.
  apply rval_rdigits. rewrite <- (N2Nat.id u) at 1. apply pow10_large.
Qed.

Lemma appendInt_padded (b : list ascii) (x : Z) (w : nat) :
  appendInt b x w = (b ++ sign x ++ rev (padded x w))%list.
Proof. reflexivity. Qed.

Lemma rval_padded (x : Z) (w : nat) : rval (padded x w) = Z.to_N (Z.abs x).
Proof. unfold padded. rewrite rval_zeros. apply rval_digits_of. Qed.

Lemma padded_inj (x y : Z) (w : nat) :
  padded x w = padded y w -> Z.abs x = Z.abs y.
Proof.
  intros H. apply (f_equal rval) in H. rewrite !rval_padded in H. lia.
Qed.

Lemma rdigits_digits (f : nat) (u : N) (c : ascii) :
  In c (rdigits f u) -> exists k, (k < 10)%N /\ c = digit k.
Proof.
  revert u; induction f as [|f IH]; intros u Hin; cbn [rdigits In] in Hin.
  - contradiction.
  - destruct Hin as [<- | Hin].
    + exists (u mod 10)%N. split; [apply N.mod_lt; lia | reflexivity].
    + destruct (u <? 10)%N; [contradiction | exact (IH _ Hin)].
Qed.

Lemma dash_not_in_padded (x : Z) (w : nat) : ~ In "-"%char (padded x w).
Proof.
  unfold padded. intros Hin. apply in_app_or in Hin as [Hin | Hin].
  - apply rdigits_digits in Hin as (k & Hk & E).
    apply (f_equal N_of_ascii) in E. unfold digit in E.
    rewrite N_ascii_embedding in E by lia.
    change (N_of_ascii "-"%char) with 45%N in E. lia.
  - apply repeat_spec in Hin. discriminate.
Qed.

Lemma rdigits_short (f : nat) (u : N) :
  (u < 100)%N -> (length (rdigits f u) <= 2)%nat.
Proof.
  intros Hu. destruct f as [|f]; cbn [rdigits length]; [lia|].
  destruct (u <? 10)%N eqn:E; cbn [length]; [lia|].
  destruct f as [|f]; cbn [rdigits length]; [lia|].
  apply N.ltb_ge in E.
  assert (Hq : (u / 10 < 10)%N) by (apply N.Div0.div_lt_upper_bound; lia).
  apply N.ltb_lt in Hq. rewrite Hq. cbn [length]. lia.
Qed.

Lemma padded_length2 (x : Z) :
  (0 <= x < 100)%Z -> length (padded x 2) = 2%nat.
Proof.
  intros Hx. unfold padded. rewrite length_app, repeat_length.
  pose proof (rdigits_short (S (N.to_nat (Z.to_N (Z.abs x)))) (Z.to_N (Z.abs x))
                ltac:(lia)).
  lia.
Qed.

Lemma app_inv_same_length {A} (l1 l2 r1 r2 : list A) :
  length l1 = length l2 -> (l1 ++ r1 = l2 ++ r2)%list -> l1 = l2 /\ r1 = r2.
Proof.
  revert l2; induction l1 as [|a l1 IH]; intros [|b l2] Hl E; simpl in *;
    try discriminate; auto.
  injection E as -> E. injection Hl as Hl.
  destruct (IH l2 Hl E) as [-> ->]. auto.
Qed.

Lemma year_inj (y1 y2 : Z) :
  (padded y1 4 ++ rev (sign y1) = padded y2 4 ++ rev (sign y2))%list -> y1 = y2.
Proof.
  unfold sign. destruct (y1 <? 0)%Z eqn:E1, (y2 <? 0)%Z eqn:E2; cbn [rev app];
    rewrite ?app_nil_r; intros H.
  - apply app_inj_tail in H as [H _]. apply padded_inj in H. lia.
  - exfalso. apply (dash_not_in_padded y2 4). rewrite <- H.
    apply in_or_app. right. left. reflexivity.
  - exfalso. apply (dash_not_in_padded y1 4). rewrite H.
    apply in_or_app. right. left. reflexivity.
  - apply padded_inj in H. lia.
Qed.

Lemma FormatDateOnly_rev (t : Time) :
  rev (list_ascii_of_string (FormatDateOnly t)) =
  (padded (day t) 2 ++ rev (sign (day t)) ++ ["-"%char]
   ++ padded (month t) 2 ++ rev (sign (month t)) ++ ["-"%char]
   ++ padded (year t) 4 ++ rev (sign (year t)))%list.
Proof.
  unfold FormatDateOnly. rewrite list_ascii_of_string_of_list_ascii.
  rewrite !appendInt_padded. cbn [app].
  rewrite !rev_app_distr, !rev_involutive. cbn [rev app].
  rewrite <- !app_assoc. reflexivity.
Qed.

Lemma sign_nonneg (x : Z) : (0 <= x)%Z -> sign x = [].
Proof. intros H. unfold sign. destruct (x <? 0)%Z eqn:E; [lia | reflexivity]. Qed.

(** Distinct calendar dates format to distinct [DateOnly] strings. *)
Lemma FormatDateOnly_inj (t1 t2 : Time) :
  valid_time t1 = true -> valid_time t2 = true ->
  FormatDateOnly t1 = FormatDateOnly t2 -> date t1 = date t2.
Proof.
  unfold valid_time, date.
  intros V1 V2 E.
  repeat rewrite andb_true_iff in V1, V2. rewrite !Z.leb_le in V1, V2.
  apply (f_equal (fun s => rev (list_ascii_of_string s))) in E.
  rewrite !FormatDateOnly_rev in E.
  rewrite !(sign_nonneg (day _)), !(sign_nonneg (month _)) in E by lia.
  cbn [rev app] in E.
  apply app_inv_same_length in E as [Ed E];
    [| rewrite !padded_length2 by lia; reflexivity].
  apply (f_equal (@tl ascii)) in E. cbn [tl] in E.
  apply app_inv_same_length in E as [Em E];
    [| rewrite !padded_length2 by lia; reflexivity].
  apply (f_equal (@tl ascii)) in E. cbn [tl] in E.
  apply year_inj in E.
  apply padded_inj in Ed. apply padded_inj in Em.
  f_equal; [f_equal|]; lia.
Qed.

End DateFacts.

Module JourneyFacts.
Import GoTime Journey Specs.

Lemma UUID_eqb_spec (u v : UUID) : UUIDs.UUID_eqb u v = true <-> u = v.
Proof. unfold UUIDs.UUID_eqb. destruct (UUIDs.UUID_eq_dec u v); split; congruence. Qed.

Lemma find_map {A} (P : A -> bool) (f : A -> A) (l : list A) :
  (forall x, P (f x) = P x) -> find P (map f l) = option_map f (find P l).
Proof.
  intros HP. induction l as [|x l IH]; simpl; [reflexivity|].
  rewrite HP. destruct (P x); [reflexivity | exact IH].
Qed.

Lemma confirm_one_ID (id : UUID) (p : Participant) :
  participant_ID (confirm_one id p) = participant_ID p.
Proof. unfold confirm_one. destruct UUIDs.UUID_eqb; reflexivity. Qed.

Lemma find_participant_confirm (db : DB) (id : UUID) (p : Participant) :
  db_up db = true -> find_participant db id = Some p ->
  exists p1, find_participant (fst (pg_ConfirmParticipant db id)) id = Some p1
             /\ participant_IsConfirmed p1 = true.
Proof.
  intros Hup Hf. unfold pg_ConfirmParticipant. rewrite Hup.
  unfold find_participant in *; simpl.
  rewrite (find_map _ (confirm_one id))
    by (intros x; rewrite confirm_one_ID; reflexivity).
  rewrite Hf. apply find_some in Hf as [_ Hid].
  eexists; split; [reflexivity|]. unfold confirm_one. rewrite Hid. reflexivity.
Qed.

(** ** C1 *)

(** C1: for a participant ID that names an existing participant in a
    reachable store, a second [PatchParticipantsParticipantIDConfirm]
    right after the first always answers 400 "participante já
    confirmado" and changes nothing; after the first call the
    participant is confirmed; the first call succeeds exactly when the
    participant was not yet confirmed, and when it already was, the
    first call is rejected before any mutation. *)
Theorem confirm_participant_twice (api : API) (w : World) (participantID : string)
  (id : UUID) (p : Participant) :
  UUIDs.Parse participantID = Some id ->
  db_up (w_db w) = true ->
  find_participant (w_db w) id = Some p ->
  let '(o1, w1) := PatchParticipantsParticipantIDConfirm api participantID w in
  let '(o2, w2) := PatchParticipantsParticipantIDConfirm api participantID w1 in
  o2 = JSON400 "participante já confirmado" /\ w2 = w1 /\
  (exists p1, find_participant (w_db w1) id = Some p1 /\ participant_IsConfirmed p1 = true) /\
  (o1 = JSON204 <-> participant_IsConfirmed p = false) /\
  (participant_IsConfirmed p = true ->
     o1 = JSON400 "participante já confirmado" /\ w1 = w).
Proof.
  intros Hparse Hup Hfind.
  unfold PatchParticipantsParticipantIDConfirm. rewrite Hparse.
  unfold bind, query, ret, pg_GetParticipant. rewrite Hup, Hfind.
  destruct (participant_IsConfirmed p) eqn:Hc.
  - cbv beta iota zeta. rewrite Hup, Hfind, Hc.
    repeat split; try reflexivity; try discriminate. exists p. auto.
  - unfold exec.
    destruct (find_participant_confirm (w_db w) id p Hup Hfind) as (p1 & Hf1 & Hc1).
    destruct (pg_ConfirmParticipant (w_db w) id) as [d e] eqn:Hpc.
    unfold pg_ConfirmParticipant in Hpc. rewrite Hup in Hpc.
    injection Hpc as <- <-. simpl in Hf1 |- *.
    rewrite Hf1, Hc1. repeat split; auto; try discriminate.
    exists p1. auto.
Qed.

(** ** C8 *)

(** C8: for a well-formed participant ID that names no participant in a
    reachable store, [PatchParticipantsParticipantIDConfirm] answers with
    status 400 and the "not found" message "participante não encontrado"
    (never 404), and changes nothing. *)
Theorem confirm_participant_not_found (api : API) (w : World) (participantID : string)
  (id : UUID) :
  UUIDs.Parse participantID = Some id ->
  db_up (w_db w) = true ->
  find_participant (w_db w) id = None ->
  PatchParticipantsParticipantIDConfirm api participantID w =
  (Return (mkResponse 400 (BodyError "participante não encontrado")), w).
Proof.
  intros Hparse Hup Hfind.
  unfold PatchParticipantsParticipantIDConfirm. rewrite Hparse.
  unfold bind, query, ret, pg_GetParticipant. rewrite Hup, Hfind. reflexivity.
Qed.

Lemma update_one_ID (arg : UpdateTripParams) (t : Trip) :
  trip_ID (update_one arg t) = trip_ID t.
Proof. unfold update_one. destruct UUIDs.UUID_eqb; reflexivity. Qed.

Lemma find_trip_update (db : DB) (arg : UpdateTripParams) (id : UUID) :
  db_up db = true ->
  find_trip (fst (pg_UpdateTrip db arg)) id = option_map (update_one arg) (find_trip db id).
Proof.
  intros Hup. unfold pg_UpdateTrip, find_trip. rewrite Hup. simpl.
  apply (find_map _ (update_one arg)). intros x. rewrite update_one_ID. reflexivity.
Qed.

Lemma find_trip_ID (db : DB) (id : UUID) (t : Trip) :
  find_trip db id = Some t -> trip_ID t = id.
Proof.
  unfold find_trip. intros H. apply find_some in H as [_ H].
  apply UUID_eqb_spec in H. exact H.
Qed.

Lemma log_Error_db (msg : string) (fields : list (string * Field)) (w : World) :
  w_db (snd (log_Error msg fields w)) = w_db w.
Proof. reflexivity. Qed.

(** ** C2 *)

(** C2: whatever [PutTripsTripID] is given, the is-confirmed flag of
    every trip, as [GetTrip] reads it, is the same after the call as
    before; when the call succeeds (204) the trip's destination,
    starts-at and ends-at are overwritten by the request's and its
    is-confirmed flag is the one it had (so a confirmed trip stays
    confirmed). *)
Theorem update_trip_keeps_confirmation (api : API) (w : World) (tripID : string)
  (body : option UpdateTripRequest) :
  let '(o, w') := PutTripsTripID api tripID body w in
  (forall id, option_map trip_IsConfirmed (find_trip (w_db w') id) =
              option_map trip_IsConfirmed (find_trip (w_db w) id)) /\
  (o = JSON204 ->
   exists id t b,
     UUIDs.Parse tripID = Some id /\ body = Some b /\
     find_trip (w_db w) id = Some t /\
     find_trip (w_db w') id =
       Some (mkTrip (trip_ID t) (utr_Destination b) (trip_OwnerEmail t) (trip_OwnerName t)
                    (utr_StartsAt b) (utr_EndsAt b) (trip_IsConfirmed t))).
Proof.
  unfold PutTripsTripID, bind, query, ret.
  destruct (UUIDs.Parse_full tripID) as [id|] eqn:Hparse;
    [| simpl; split; [reflexivity | discriminate]].
  unfold pg_GetTrip.
  destruct (db_up (w_db w)) eqn:Hup; [| simpl; split; [reflexivity | discriminate]].
  destruct (find_trip (w_db w) id) as [t|] eqn:Hf; [| simpl; split; [reflexivity | discriminate]].
  destruct body as [b|]; [| simpl; split; [reflexivity | discriminate]].
  destruct (validate_UpdateTripRequest api b); [simpl; split; [reflexivity | discriminate]|].
  set (arg := mkUpdateTripParams id (utr_Destination b) (utr_StartsAt b) (utr_EndsAt b)
                                 (trip_IsConfirmed t)).
  unfold exec.
  pose proof (find_trip_update (w_db w) arg) as Hupd.
  destruct (pg_UpdateTrip (w_db w) arg) as [d e] eqn:Hpu.
  assert (He : e = None) by (unfold pg_UpdateTrip in Hpu; rewrite Hup in Hpu; congruence).
  subst e. simpl in Hupd |- *. split.
  - intros id'. rewrite Hupd by exact Hup.
    destruct (find_trip (w_db w) id') as [t'|] eqn:Hf'; [|reflexivity]. simpl.
    unfold update_one. destruct (UUIDs.UUID_eqb (trip_ID t') (utp_ID arg)) eqn:E;
      [|reflexivity].
    apply UUID_eqb_spec in E. simpl in E.
    pose proof (find_trip_ID _ _ _ Hf') as Hid'. subst id'. rewrite E in Hf'.
    rewrite Hf in Hf'. injection Hf' as ->. reflexivity.
  - intros _. exists id, t, b.
    split; [apply UUIDFacts.Parse_full_inl, Hparse|]. repeat split; auto.
    rewrite Hupd by exact Hup. rewrite Hf. simpl. unfold update_one.
    rewrite (find_trip_ID _ _ _ Hf). simpl.
    destruct (UUIDs.UUID_eqb id id) eqn:E; [reflexivity|].
    exfalso. assert (UUIDs.UUID_eqb id id = true) by (apply UUID_eqb_spec; reflexivity).
    congruence.
Qed.

End JourneyFacts.

Module MailPitFacts.
Import GoTime Journey MailPit Specs.

Lemma reads_only_ret {A} (a : A) : reads_only (ret a).
Proof. intros w. split; reflexivity. Qed.

Lemma reads_only_bind {A B} (m : M A) (k : A -> M B) :
  reads_only m -> (forall a, reads_only (k a)) -> reads_only (bind m k).
Proof.
  intros Hm Hk w. unfold bind. specialize (Hm w).
  destruct (m w) as [a w'] eqn:E. simpl in Hm. destruct Hm as [Hd Hs].
  destruct (Hk a w') as [Hd' Hs']. rewrite Hd', Hs'. auto.
Qed.

Lemma reads_only_query {A} (f : DB -> A) : reads_only (query f).
Proof. intros w. split; reflexivity. Qed.

Lemma reads_only_DialAndSend (m : Msg) : reads_only (DialAndSend m).
Proof. intros w. unfold DialAndSend. destruct (w_net w (w_dials w)); split; reflexivity. Qed.

Lemma reads_only_log_Error (msg : string) (fields : list (string * Field)) :
  reads_only (log_Error msg fields).
Proof. intros w. split; reflexivity. Qed.

(** The owner e-mail only reads the store. *)
Lemma reads_only_SendConfirmTripEmailToTripOwner (ParseAddress : string -> bool) (id : UUID) :
  reads_only (SendConfirmTripEmailToTripOwner ParseAddress id).
Proof.
  unfold SendConfirmTripEmailToTripOwner.
  apply reads_only_bind; [apply reads_only_query|]. intros [trip|err]; [|apply reads_only_ret].
  destruct (ParseAddress From); [|apply reads_only_ret].
  destruct (ParseAddress (trip_OwnerEmail trip)); [|apply reads_only_ret].
  simpl. apply reads_only_bind; [apply reads_only_DialAndSend|].
  intros [e|]; apply reads_only_ret.
Qed.

(** [go] records the goroutine as spawned; with a mailer that only
    reads, it leaves the store alone. *)
Lemma go_spec (api : API) (t : Task) (w : World) :
  (forall id, reads_only (mailer_SendConfirmTripEmailToTripOwner api id)) ->
  w_db (snd (go api t w)) = w_db w /\
  w_spawned (snd (go api t w)) = (w_spawned w ++ [t])%list.
Proof.
  intros Hm. unfold go. destruct (w_sched w (length (w_spawned w))); [|split; reflexivity].
  destruct t as [id]. unfold run_task.
  match goal with |- context [bind ?m ?k ?w0] =>
    destruct (reads_only_bind m k (Hm id)) with (w := w0) as [Hd Hs] end.
  - intros [e|]; [apply reads_only_log_Error | apply reads_only_ret].
  - rewrite Hd, Hs. split; reflexivity.
Qed.

Lemma pg_CreateTrip_ok (db d : DB) (req : CreateTripRequest) (id : UUID) :
  pg_CreateTrip db req = (d, (id, None)) ->
  db_up d = true /\
  find_trip d id = Some (mkTrip id (ctr_Destination req) (ctr_OwnerEmail req)
                                (ctr_OwnerName req) (ctr_StartsAt req) (ctr_EndsAt req) false).
Proof.
  unfold pg_CreateTrip. destruct (db_up db) eqn:Hup; [|discriminate]. simpl.
  destruct (_ || _); [discriminate|].
  intros H. injection H as <- <-. split; [reflexivity|].
  unfold find_trip. simpl.
  assert (E : UUIDs.UUID_eqb (db_uuids db (db_next_uuid db)) (db_uuids db (db_next_uuid db)) = true)
    by (apply JourneyFacts.UUID_eqb_spec; reflexivity).
  rewrite E. reflexivity.
Qed.

End MailPitFacts.

Module PostTripsFacts.
Import GoTime Journey MailPit Specs MailPitFacts.

(** ** C7 *)

(** C7: when [PostTrips] creates a trip from a request with destination
    D, starts-at S and ends-at E and returns its ID, [GetTripsTripID] on
    that ID returns destination D, starts-at S, ends-at E and
    is-confirmed false (whether or not the owner e-mail goroutine has
    already run). *)
Theorem create_then_get_trip (ParseAddress : string -> bool) v1 v2 v3
  (w : World) (req : CreateTripRequest) (tripID : string) (w1 : World) :
  PostTrips (mailpit_api ParseAddress v1 v2 v3) (Some req) w =
    (Return (mkResponse 201 (BodyCreateTrip tripID)), w1) ->
  fst (GetTripsTripID (mailpit_api ParseAddress v1 v2 v3) tripID w1) =
    Return (mkResponse 200 (BodyTripDetails (ctr_Destination req) (ctr_EndsAt req) tripID
                                            false (ctr_StartsAt req))).
Proof.
  set (api := mailpit_api ParseAddress v1 v2 v3).
  unfold PostTrips.
  destruct (validate_CreateTripRequest api req); [discriminate|].
  unfold bind, exec.
  destruct (pg_CreateTrip (w_db w) req) as [d [id e]] eqn:Hc.
  destruct (go_spec api (GoSendConfirmTripEmailToTripOwner id) (set_db d w)
              (reads_only_SendConfirmTripEmailToTripOwner ParseAddress)) as [Hg _].
  destruct (go api (GoSendConfirmTripEmailToTripOwner id) (set_db d w)) as [u wg].
  simpl in Hg.
  destruct e as [err|]; [unfold log_Error; discriminate|].
  intros H. injection H as <- <-.
  destruct (pg_CreateTrip_ok _ _ _ _ Hc) as [Hup Hf].
  unfold GetTripsTripID. rewrite UUIDFacts.Parse_full_String.
  unfold bind, query, pg_GetTrip. rewrite Hg, Hup, Hf. reflexivity.
Qed.

(** ** C4 *)

(** C4: two runs of [PostTrips] on the same request and database that
    differ only in the mailer (any implementation, whatever it returns),
    in the mail transport's outcomes and in when the goroutine runs,
    return the same response. *)
Theorem PostTrips_response_independent_of_mailer
  (v1 : CreateTripRequest -> option string) (v2 : UpdateTripRequest -> option string)
  (v3 : CreateActivityRequest -> option string) (m1 m2 : UUID -> M (option error))
  (body : option CreateTripRequest) (w : World) (net sched : nat -> bool) :
  fst (PostTrips (mkAPI v1 v2 v3 m1) body w) =
  fst (PostTrips (mkAPI v1 v2 v3 m2) body (with_env net sched w)).
Proof.
  unfold PostTrips. destruct body as [req|]; [|reflexivity]. simpl.
  destruct (v1 req); [reflexivity|].
  unfold bind, exec. simpl.
  destruct (pg_CreateTrip (w_db w) req) as [d [id e]].
  destruct (go _ _ (set_db d w)) as [u1 wa].
  destruct (go _ _ (set_db d (with_env net sched w))) as [u2 wb].
  destruct e; reflexivity.
Qed.

(** ** C9 *)

(** C9: for a request that decodes and validates, [PostTrips] launches
    the goroutine sending the owner e-mail for the ID [CreateTrip]
    returned, before looking at [CreateTrip]'s error: it is launched
    even when the creation fails, and then the caller gets the generic
    400 "something went wrong, try again". *)
Theorem PostTrips_mails_owner_even_on_failure (ParseAddress : string -> bool) v1 v2 v3
  (req : CreateTripRequest) (w : World) (d : DB) (tripID : UUID) (err : option error) :
  v1 req = None ->
  pg_CreateTrip (w_db w) req = (d, (tripID, err)) ->
  let '(o, w') := PostTrips (mailpit_api ParseAddress v1 v2 v3) (Some req) w in
  w_spawned w' = (w_spawned w ++ [GoSendConfirmTripEmailToTripOwner tripID])%list /\
  (err <> None -> o = JSON400 "something went wrong, try again").
Proof.
  intros Hv Hc. set (api := mailpit_api ParseAddress v1 v2 v3).
  unfold PostTrips. change (validate_CreateTripRequest api req) with (v1 req). rewrite Hv.
  unfold bind, exec. rewrite Hc.
  destruct (go_spec api (GoSendConfirmTripEmailToTripOwner tripID) (set_db d w)
              (reads_only_SendConfirmTripEmailToTripOwner ParseAddress)) as [_ Hs].
  destruct (go api (GoSendConfirmTripEmailToTripOwner tripID) (set_db d w)) as [u wg].
  simpl in Hs. destruct err as [e|].
  - simpl. split; [exact Hs | reflexivity].
  - split; [exact Hs | congruence].
Qed.

End PostTripsFacts.

Module ActivityFacts.
Import GoTime Journey Specs.

Lemma lookup_map_append (m : list (string * list Activity)) (k k' : string) (a : Activity) :
  lookup k' (map_append m k a) =
  if String.eqb k' k then (lookup k m ++ [a])%list else lookup k' m.
Proof.
  unfold lookup. induction m as [|[k0 v0] m IH]; cbn [map_append find fst].
  - destruct (String.eqb_spec k k'); destruct (String.eqb_spec k' k);
      subst; try congruence; reflexivity.
  - destruct (String.eqb_spec k k0) as [<-|Hne]; cbn [find fst].
    + rewrite String.eqb_refl.
      destruct (String.eqb_spec k k'); destruct (String.eqb_spec k' k);
        subst; try congruence; reflexivity.
    + destruct (String.eqb_spec k0 k') as [<-|Hne'].
      * destruct (String.eqb_spec k0 k); [congruence|reflexivity].
      * rewrite IH. destruct (String.eqb_spec k' k) as [->|]; [|reflexivity].
        destruct (String.eqb_spec k0 k); [congruence|reflexivity].
Qed.

Lemma in_keys_map_append (m : list (string * list Activity)) (k k' : string) (a : Activity) :
  In k' (map fst (map_append m k a)) <-> k' = k \/ In k' (map fst m).
Proof.
  induction m as [|[k0 v0] m IH]; simpl.
  - intuition.
  - destruct (String.eqb k k0) eqn:E; simpl.
    + apply String.eqb_eq in E. subst k0. intuition.
    + rewrite IH. intuition.
Qed.

Lemma NoDup_map_append (m : list (string * list Activity)) (k : string) (a : Activity) :
  NoDup (map fst m) -> NoDup (map fst (map_append m k a)).
Proof.
  induction m as [|[k0 v0] m IH]; simpl; intros Hnd.
  - constructor; [intros [] | constructor].
  - inversion Hnd as [|? ? Hnin Hnd']; subst.
    destruct (String.eqb k k0) eqn:E; simpl; [exact Hnd|].
    constructor; [|exact (IH Hnd')].
    rewrite in_keys_map_append. intros [-> | H]; [|contradiction].
    rewrite String.eqb_refl in E. discriminate.
Qed.

Lemma group_fold (acts : list Activity) (m : list (string * list Activity)) :
  let G := fold_left (fun m a => map_append m (key a) a) acts m in
  (NoDup (map fst m) -> NoDup (map fst G)) /\
  (forall k, In k (map fst G) <-> In k (map fst m) \/ exists a, In a acts /\ key a = k) /\
  (forall k, lookup k G = (lookup k m ++ filter (fun a => String.eqb (key a) k) acts)%list).
Proof.
  revert m. induction acts as [|a acts IH]; intros m; simpl.
  - split; [auto|]. split.
    + intros k. split; [auto | intros [H | (a & [] & _)]; exact H].
    + intros k. rewrite app_nil_r. reflexivity.
  - destruct (IH (map_append m (key a) a)) as (H1 & H2 & H3). split; [|split].
    + intros Hnd. apply H1, NoDup_map_append, Hnd.
    + intros k. rewrite H2, in_keys_map_append. split.
      * intros [[-> | H] | (b & Hb & <-)]; eauto.
      * intros [H | (b & [<- | Hb] & <-)]; eauto.
    + intros k. rewrite H3, lookup_map_append. simpl.
      destruct (String.eqb_spec k (key a)) as [E|Hne];
        destruct (String.eqb_spec (key a) k); try congruence.
      rewrite <- E, <- app_assoc. reflexivity.
Qed.

Lemma in_lookup (m : list (string * list Activity)) (k : string) (v : list Activity) :
  NoDup (map fst m) -> In (k, v) m -> v = lookup k m.
Proof.
  unfold lookup. induction m as [|[k0 v0] m IH]; simpl; intros Hnd Hin; [contradiction|].
  inversion Hnd as [|? ? Hnin Hnd']; subst.
  destruct Hin as [E | Hin].
  - injection E as -> ->. rewrite String.eqb_refl. reflexivity.
  - destruct (String.eqb k0 k) eqn:E.
    + apply String.eqb_eq in E. subst k0. exfalso. apply Hnin.
      apply (in_map fst _ (k, v)). exact Hin.
    + apply IH; assumption.
Qed.

Lemma FormatDateOnly_date (t1 t2 : Time) :
  date t1 = date t2 -> FormatDateOnly t1 = FormatDateOnly t2.
Proof.
  unfold date, FormatDateOnly. intros E. injection E as E1 E2 E3.
  rewrite E1, E2, E3. reflexivity.
Qed.

Lemma in_groups (entries : list (string * list Activity)) g :
  In g (outputActivities entries) <->
  exists k v, In (k, v) entries /\ g = (ParseDateOnly k, map inner v).
Proof.
  unfold outputActivities. rewrite in_map_iff. split.
  - intros ([k v] & <- & Hin). eauto.
  - intros (k & v & Hin & ->). exists (k, v). auto.
Qed.

Lemma in_output order (acts : list Activity) g :
  (forall l, Permutation (order l) l) ->
  In g (outputActivities (order (groupActivities acts))) <->
  exists k, (exists a, In a acts /\ key a = k) /\
    g = (ParseDateOnly k, map inner (filter (fun a => String.eqb (key a) k) acts)).
Proof.
  intros Hperm.
  destruct (group_fold acts []) as (Hnd & Hkeys & Hlk).
  change (fold_left (fun m a => map_append m (key a) a) acts [])
    with (groupActivities acts) in Hnd, Hkeys, Hlk.
  specialize (Hnd (NoDup_nil _)).
  assert (HP : Permutation (outputActivities (order (groupActivities acts)))
                           (outputActivities (groupActivities acts)))
    by (unfold outputActivities; apply Permutation_map, Hperm).
  split.
  - intros Hg. apply (Permutation_in _ HP) in Hg.
    apply in_groups in Hg as (k & v & Hin & ->).
    exists k. split.
    + assert (Hk : In k (map fst (groupActivities acts)))
        by (apply (in_map fst _ (k, v)); exact Hin).
      apply Hkeys in Hk as [[] | Hk]. exact Hk.
    + rewrite (in_lookup _ _ _ Hnd Hin), Hlk. reflexivity.
  - intros (k & Hk & ->).
    assert (Hk' : In k (map fst (groupActivities acts))) by (apply Hkeys; right; exact Hk).
    apply in_map_iff in Hk' as ([k0 v] & Hk0 & Hin). simpl in Hk0. subst k0.
    apply (Permutation_in _ (Permutation_sym HP)).
    apply in_groups. exists k, v. split; [exact Hin|].
    rewrite (in_lookup _ _ _ Hnd Hin), Hlk. reflexivity.
Qed.

Lemma in_inner_filter (acts : list Activity) k x :
  In x (map inner (filter (fun a => String.eqb (key a) k) acts)) <->
  exists c, In c acts /\ key c = k /\ x = inner c.
Proof.
  rewrite in_map_iff. split.
  - intros (c & <- & Hc). apply filter_In in Hc as [Hc Hk].
    apply String.eqb_eq in Hk. eauto.
  - intros (c & Hc & Hk & ->). exists c. split; [reflexivity|].
    apply filter_In. split; [exact Hc|]. apply String.eqb_eq, Hk.
Qed.

Lemma inner_OccursAt a c : inner c = inner a -> activity_OccursAt c = activity_OccursAt a.
Proof. unfold inner. intros E. injection E. auto. Qed.

(** C6: [GET /trips/{tripId}/activities] answers 200 with groups that hold
    exactly the trip's activities, and two activities share a group if and
    only if they occur on the same calendar date (year, month, day), whatever
    their time of day and whatever order the map is visited in. *)
Theorem GetTripsTripIDActivities_groups_by_date order api tripID w id acts :
  (forall l, Permutation (order l) l) ->
  UUIDs.Parse tripID = Some id ->
  pg_GetTripActivities (w_db w) id = inl acts ->
  Forall (fun a => valid_time (activity_OccursAt a) = true) acts ->
  exists groups,
    GetTripsTripIDActivities order api tripID w
      = (Return (mkResponse 200 (BodyActivities groups)), w) /\
    (forall g x, In g groups -> In x (snd g) -> exists a, In a acts /\ x = inner a) /\
    (forall a, In a acts -> exists g, In g groups /\ In (inner a) (snd g)) /\
    (forall a b, In a acts -> In b acts ->
       ((exists g, In g groups /\ In (inner a) (snd g) /\ In (inner b) (snd g))
        <-> date (activity_OccursAt a) = date (activity_OccursAt b))).
Proof.
  intros Hperm Hp Hq Hvalid.
  unfold GetTripsTripIDActivities. rewrite (UUIDFacts.Parse_Some _ _ Hp). unfold bind, query. rewrite Hq.
  eexists. split; [reflexivity|]. split; [|split].
  - intros g x Hg Hx. apply (in_output _ _ _ Hperm) in Hg as (k & _ & ->).
    apply in_inner_filter in Hx as (c & Hc & _ & ->). eauto.
  - intros a Ha. eexists. split.
    + apply (in_output _ _ _ Hperm). exists (key a). split; [eauto | reflexivity].
    + apply in_inner_filter. eauto.
  - intros a b Ha Hb. split.
    + intros (g & Hg & Hxa & Hxb).
      apply (in_output _ _ _ Hperm) in Hg as (k & _ & ->).
      apply in_inner_filter in Hxa as (c & _ & Hc & Ec).
      apply in_inner_filter in Hxb as (d & _ & Hd & Ed).
      apply inner_OccursAt in Ec, Ed.
      rewrite Forall_forall in Hvalid.
      apply DateFacts.FormatDateOnly_inj; [apply Hvalid, Ha | apply Hvalid, Hb |].
      unfold key in Hc, Hd. congruence.
    + intros Hdate. exists (ParseDateOnly (key a),
        map inner (filter (fun c => String.eqb (key c) (key a)) acts)).
      split; [|split].
      * apply (in_output _ _ _ Hperm). exists (key a). split; [eauto | reflexivity].
      * apply in_inner_filter. eauto.
      * apply in_inner_filter. exists b. split; [exact Hb|]. split; [|reflexivity].
        unfold key. symmetry. apply FormatDateOnly_date, Hdate.
Qed.

End ActivityFacts.

Module SendFacts.
Import GoTime Journey MailPit.

Lemma attempt_ok_next (ParseAddress : string -> bool) (w w1 : World) i p :
  w_net w1 = w_net w -> w_dials w1 = S (w_dials w) ->
  attempt_ok ParseAddress w1 i p = attempt_ok ParseAddress w (S i) p.
Proof.
  intros Hn Hd. unfold attempt_ok. rewrite Hn, Hd.
  replace (w_dials w + S i) with (S (w_dials w) + i) by lia. reflexivity.
Qed.

Ltac first_fails HF HE HN :=
  exists 0; simpl; rewrite app_nil_r; split; [lia|]; split; [reflexivity|];
  split; [intros; lia|]; split; [split; discriminate|];
  intros _; eexists; split; [reflexivity|];
  unfold attempt_ok; rewrite ?HF, ?HE, ?Nat.add_0_r, ?HN; reflexivity.

Lemma sendLoop_spec (ParseAddress : string -> bool) (ps : list Participant) (w : World) :
  let '(err, w') := sendLoop ParseAddress ps w in
  exists k, k <= length ps /\
    w_outbox w' = (w_outbox w ++ map confirmedMsg (firstn k ps))%list /\
    (forall i p, i < k -> nth_error ps i = Some p -> attempt_ok ParseAddress w i p = true) /\
    (err = None <-> k = length ps) /\
    (err <> None -> exists p, nth_error ps k = Some p /\ attempt_ok ParseAddress w k p = false).
Proof.
  revert w. induction ps as [|p ps IH]; intros w; cbn [sendLoop].
  - exists 0. simpl. rewrite app_nil_r. split; [lia|]. split; [reflexivity|].
    split; [intros; lia|]. split; [tauto | intros H; contradiction].
  - destruct (ParseAddress From) eqn:HF; cbn [negb]; [|first_fails HF HF HF].
    destruct (ParseAddress (participant_Email p)) eqn:HE; cbn [negb];
      [|first_fails HF HE HE].
    unfold bind, DialAndSend.
    destruct (w_net w (w_dials w)) eqn:HN; [|first_fails HF HE HN].
    set (w1 := mkWorld (w_db w) (w_log w) (w_net w) (S (w_dials w))
                       (w_outbox w ++ [confirmedMsg p])%list (w_sched w) (w_spawned w)
                       (w_pending w)).
    assert (Hnext : forall i q, attempt_ok ParseAddress w1 i q = attempt_ok ParseAddress w (S i) q)
      by (intros; apply attempt_ok_next; reflexivity).
    specialize (IH w1). destruct (sendLoop ParseAddress ps w1) as [err w'].
    destruct IH as (k & Hk & Hout & Hok & Hnone & Hfail).
    exists (S k). simpl length. split; [lia|]. split.
    + rewrite Hout. simpl. rewrite <- app_assoc. reflexivity.
    + split; [|split].
      * intros [|i] q Hi Hq; simpl in Hq.
        -- injection Hq as <-. unfold attempt_ok. rewrite HF, HE, Nat.add_0_r, HN. reflexivity.
        -- rewrite <- Hnext. exact (Hok i q ltac:(lia) Hq).
      * rewrite Hnone. lia.
      * intros Herr. destruct (Hfail Herr) as (q & Hq & Hq').
        exists q. split; [exact Hq|]. rewrite <- Hnext. exact Hq'.
Qed.

(** C10: when the participants of the trip are fetched (as [ps], in the
    store's order), [SendTripConfirmedEmails] sends to them one after the
    other and stops at the first send that fails: for some [k], exactly the
    first [k] participants receive an email, in that order; each of those
    sends succeeded; the call succeeds iff [k] is the number of
    participants; and when it fails, the send to the [k]-th participant is
    the one that failed, and nobody after it receives an email. *)
Theorem SendTripConfirmedEmails_sequential (ParseAddress : string -> bool)
  (tripId : UUID) (w : World) (ps : list Participant) :
  pg_GetParticipants (w_db w) tripId = inl ps ->
  let '(err, w') := SendTripConfirmedEmails ParseAddress tripId w in
  exists k, k <= length ps /\
    w_outbox w' = (w_outbox w ++ map confirmedMsg (firstn k ps))%list /\
    (forall i p, i < k -> nth_error ps i = Some p -> attempt_ok ParseAddress w i p = true) /\
    (err = None <-> k = length ps) /\
    (err <> None -> exists p, nth_error ps k = Some p /\ attempt_ok ParseAddress w k p = false).
Proof.
  intros Hps. unfold SendTripConfirmedEmails, bind, query. rewrite Hps.
  exact (sendLoop_spec ParseAddress ps w).
Qed.

End SendFacts.

Module HandlerFacts.
Import GoTime Journey.

(** C3: [GET /trips/{tripId}/confirm] is the stub [panic("not implemented")]:
    called twice on any trip, both calls panic and the world is left as it
    was, so a trip that was not confirmed is still not confirmed afterwards
    and no goroutine is started. *)
Theorem GetTripsTripIDConfirm_never_confirms (api : API) (tripID : string) (w : World) :
  let '(o1, w1) := GetTripsTripIDConfirm api tripID w in
  let '(o2, w2) := GetTripsTripIDConfirm api tripID w1 in
  o1 = Panic "not implemented" /\ o2 = Panic "not implemented" /\
  w1 = w /\ w2 = w /\
  (forall id, option_map trip_IsConfirmed (find_trip (w_db w2) id)
              = option_map trip_IsConfirmed (find_trip (w_db w) id)).
Proof. cbn. repeat split. Qed.

(** C5: [POST /trips/{tripId}/activities] with a well-formed id of a trip
    that does not exist and a valid body: the insert fails with a
    foreign-key violation, not [pgx.ErrNoRows], so the handler answers 400
    with the generic "something went wrong, try again", not "trip not
    found". *)
Theorem PostTripsTripIDActivities_missing_trip (api : API) (tripID : string) (id : UUID)
  (body : CreateActivityRequest) (w : World) :
  UUIDs.Parse tripID = Some id ->
  validate_CreateActivityRequest api body = None ->
  db_up (w_db w) = true ->
  trip_exists (w_db w) id = false ->
  fst (PostTripsTripIDActivities api tripID (Some body) w)
    = JSON400 "something went wrong, try again".
Proof.
  intros Hp Hv Hup Hex. unfold PostTripsTripIDActivities. rewrite (UUIDFacts.Parse_Some _ _ Hp), Hv.
  unfold bind, exec, pg_CreateActivity. cbn [cap_TripID]. rewrite Hup, Hex.
  reflexivity.
Qed.

End HandlerFacts.

Module DateRoundTrip.
Import GoTime Journey DateFacts.

Definition digitish (c : ascii) : Prop := exists k, (k < 10)%N /\ c = digit k.

Lemma digit_of_digit (k : N) : (k < 10)%N -> digit_of (digit k) = Some (Z.of_N k).
Proof.
  intros Hk. unfold digit_of, digit. rewrite N_ascii_embedding by lia.
  replace ((48 <=? 48 + k)%N && (48 + k <=? 57)%N) with true
    by (symmetry; apply andb_true_iff; split; apply N.leb_le; lia).
  f_equal. lia.
Qed.

Lemma padded_digitish (x : Z) (w : nat) : Forall digitish (padded x w).
Proof.
  unfold padded. apply Forall_app. split.
  - apply Forall_forall. intros c Hc. apply rdigits_digits in Hc. exact Hc.
  - apply Forall_forall. intros c Hc. apply repeat_spec in Hc. subst c.
    exists 0%N. split; [lia | reflexivity].
Qed.

Lemma getnum_app (l1 l2 : list ascii) (acc : Z) :
  getnum (l1 ++ l2) acc =
  match getnum l1 acc with Some a => getnum l2 a | None => None end.
Proof.
  revert acc. induction l1 as [|c l1 IH]; intros acc; simpl; [reflexivity|].
  destruct (digit_of c); [apply IH | reflexivity].
Qed.

Lemma getnum_rev (l : list ascii) (acc : Z) :
  Forall digitish l ->
  getnum (rev l) acc = Some (acc * 10 ^ Z.of_nat (length l) + Z.of_N (rval l))%Z.
Proof.
  revert acc. induction l as [|c l IH]; intros acc Hl.
  - simpl. f_equal. lia.
  - inversion Hl as [|? ? (k & Hk & ->) Hl']; subst.
    cbn [rev]. rewrite getnum_app, IH by exact Hl'. cbn [getnum].
    rewrite digit_of_digit by exact Hk. cbn [length rval]. rewrite digit_val by exact Hk.
    f_equal. rewrite Nat2Z.inj_succ, Z.pow_succ_r by lia. nia.
Qed.

Lemma rval_bound (l : list ascii) :
  Forall digitish l -> (rval l < 10 ^ N.of_nat (length l))%N.
Proof.
  induction l as [|c l IH]; intros Hl; [simpl; lia|].
  inversion Hl as [|? ? (k & Hk & ->) Hl']; subst. cbn [length rval].
  rewrite digit_val by exact Hk. specialize (IH Hl').
  rewrite Nat2N.inj_succ, N.pow_succ_r'. lia.
Qed.

Lemma rdigits_len (f : nat) (u : N) (w : nat) :
  (1 <= w)%nat -> (u < 10 ^ N.of_nat w)%N -> (length (rdigits f u) <= w)%nat.
Proof.
  revert u w. induction f as [|f IH]; intros u w Hw Hu; cbn [rdigits length]; [lia|].
  destruct (u <? 10)%N eqn:E; cbn [length]; [lia|].
  apply N.ltb_ge in E. destruct w as [|[|w]]; [lia| |].
  - simpl in Hu. lia.
  - assert ((length (rdigits f (u / 10)) <= S w)%nat); [|lia].
    apply IH; [lia|]. apply N.Div0.div_lt_upper_bound.
    rewrite <- N.pow_succ_r', <- Nat2N.inj_succ. exact Hu.
Qed.

Lemma padded_length (x : Z) (w : nat) :
  (1 <= w)%nat -> (Z.abs x < 10 ^ Z.of_nat w)%Z -> length (padded x w) = w.
Proof.
  intros Hw Hx. unfold padded. rewrite length_app, repeat_length.
  assert (length (rdigits (S (N.to_nat (Z.to_N (Z.abs x)))) (Z.to_N (Z.abs x))) <= w)%nat;
    [|lia].
  apply rdigits_len; [exact Hw|].
  apply N2Z.inj_lt. rewrite N2Z.inj_pow, nat_N_Z, Z2N.id by lia. exact Hx.
Qed.

Lemma padded_length_ge (x : Z) (w : nat) : (w <= length (padded x w))%nat.
Proof. unfold padded. rewrite length_app, repeat_length. lia. Qed.

Lemma padded_length_large (x : Z) (w : nat) :
  (10 ^ Z.of_nat w <= Z.abs x)%Z -> (w < length (padded x w))%nat.
Proof.
  intros Hx. pose proof (rval_bound _ (padded_digitish x w)) as Hb.
  rewrite rval_padded in Hb.
  destruct (Nat.lt_ge_cases w (length (padded x w))) as [H|H]; [exact H|].
  exfalso. apply N2Z.inj_lt in Hb. rewrite N2Z.inj_pow, nat_N_Z, Z2N.id in Hb by lia.
  assert (10 ^ Z.of_nat (length (padded x w)) <= 10 ^ Z.of_nat w)%Z
    by (apply Z.pow_le_mono_r; lia).
  lia.
Qed.

Lemma getnum_padded (x : Z) (w : nat) :
  getnum (rev (padded x w)) 0 = Some (Z.abs x).
Proof.
  rewrite getnum_rev by apply padded_digitish. rewrite rval_padded. f_equal. lia.
Qed.

Lemma FormatDateOnly_list (t : Time) :
  list_ascii_of_string (FormatDateOnly t) =
  (sign (year t) ++ rev (padded (year t) 4) ++ ["-"%char]
   ++ sign (month t) ++ rev (padded (month t) 2) ++ ["-"%char]
   ++ sign (day t) ++ rev (padded (day t) 2))%list.
Proof.
  unfold FormatDateOnly. rewrite list_ascii_of_string_of_list_ascii.
  rewrite !appendInt_padded. cbn [app]. rewrite <- !app_assoc. reflexivity.
Qed.

Lemma length4 {A} (l : list A) : length l = 4%nat -> exists a b c d, l = [a; b; c; d].
Proof.
  intros H. destruct l as [|a [|b [|c [|d [|e l]]]]]; simpl in H; try lia. eauto.
Qed.

Lemma length2 {A} (l : list A) : length l = 2%nat -> exists a b, l = [a; b].
Proof. intros H. destruct l as [|a [|b [|c l]]]; simpl in H; try lia. eauto. Qed.

Lemma ParseDateOnly_not10 (s : string) :
  length (list_ascii_of_string s) <> 10%nat -> ParseDateOnly s = ZeroTime.
Proof.
  unfold ParseDateOnly. generalize (list_ascii_of_string s) as l. intros l H.
  do 10 (destruct l as [|? l]; [reflexivity|]).
  destruct l; [simpl in H; lia | reflexivity].
Qed.

Lemma ParseDateOnly_FormatDateOnly_aux (t : Time) :
  (0 <= year t <= 9999)%Z -> (1 <= month t <= 12)%Z ->
  (1 <= day t <= daysIn (month t) (year t))%Z ->
  ParseDateOnly (FormatDateOnly t) = mkTime (year t) (month t) (day t) 0 0 0 0.
Proof.
  intros Hy Hm Hd.
  assert (Hdm : (daysIn (month t) (year t) <= 31)%Z)
    by (unfold daysIn; repeat match goal with |- context [if ?b then _ else _] =>
          destruct b end; lia).
  unfold ParseDateOnly. rewrite FormatDateOnly_list.
  rewrite !sign_nonneg by lia.
  pose proof (getnum_padded (year t) 4) as Gy.
  pose proof (getnum_padded (month t) 2) as Gm.
  pose proof (getnum_padded (day t) 2) as Gd.
  assert (Ly : length (rev (padded (year t) 4)) = 4%nat)
    by (rewrite length_rev; apply padded_length; simpl; lia).
  assert (Lm : length (rev (padded (month t) 2)) = 2%nat)
    by (rewrite length_rev; apply padded_length; simpl; lia).
  assert (Ld : length (rev (padded (day t) 2)) = 2%nat)
    by (rewrite length_rev; apply padded_length; simpl; lia).
  destruct (length4 _ Ly) as (y1 & y2 & y3 & y4 & Ey).
  destruct (length2 _ Lm) as (m1 & m2 & Em).
  destruct (length2 _ Ld) as (d1 & d2 & Ed).
  rewrite Ey in Gy |- *. rewrite Em in Gm |- *. rewrite Ed in Gd |- *.
  cbn [app]. rewrite Gy, Gm, Gd.
  rewrite !Z.abs_eq by lia. cbn [Ascii.eqb Bool.eqb andb].
  replace ((1 <=? month t) && (month t <=? 12) && (1 <=? day t)
           && (day t <=? daysIn (month t) (year t)))%Z with true
    by (symmetry; rewrite !andb_true_iff, !Z.leb_le; lia).
  reflexivity.
Qed.

Lemma ParseDateOnly_FormatDateOnly_far (t : Time) :
  (year t < 0 \/ 9999 < year t)%Z -> ParseDateOnly (FormatDateOnly t) = ZeroTime.
Proof.
  intros Hy. apply ParseDateOnly_not10. rewrite FormatDateOnly_list.
  rewrite !length_app, !length_rev. cbn [length].
  pose proof (padded_length_ge (month t) 2). pose proof (padded_length_ge (day t) 2).
  pose proof (padded_length_ge (year t) 4).
  destruct Hy as [Hy | Hy].
  - unfold sign at 1. replace (year t <? 0)%Z with true by (symmetry; apply Z.ltb_lt; lia).
    cbn [length]. lia.
  - pose proof (padded_length_large (year t) 4 ltac:(simpl; lia)). lia.
Qed.

End DateRoundTrip.

Module ActivityFacts2.
Import GoTime Journey Specs ActivityFacts DateRoundTrip.

Lemma real_date_spec (t : Time) :
  real_date t = true <->
  (0 <= year t <= 9999 /\ 1 <= month t <= 12 /\ 1 <= day t <= daysIn (month t) (year t))%Z.
Proof. unfold real_date. rewrite !andb_true_iff, !Z.leb_le. tauto. Qed.

Lemma daysIn_le31 (m y : Z) : (daysIn m y <= 31)%Z.
Proof.
  unfold daysIn. repeat match goal with |- context [if ?b then _ else _] => destruct b end; lia.
Qed.

Lemma real_date_valid (t : Time) : real_date t = true -> valid_time t = true.
Proof.
  rewrite real_date_spec. intros H. pose proof (daysIn_le31 (month t) (year t)).
  unfold valid_time. rewrite !andb_true_iff, !Z.leb_le. lia.
Qed.

Lemma ParseDateOnly_key (a : Activity) :
  real_date (activity_OccursAt a) = true ->
  ParseDateOnly (key a) = midnight (activity_OccursAt a).
Proof.
  rewrite real_date_spec. intros H. unfold key, midnight.
  apply ParseDateOnly_FormatDateOnly_aux; lia.
Qed.

Lemma key_eqb_same_date (a b : Activity) :
  real_date (activity_OccursAt a) = true -> real_date (activity_OccursAt b) = true ->
  String.eqb (key a) (key b) = same_date (activity_OccursAt a) (activity_OccursAt b).
Proof.
  intros Ha Hb. unfold same_date.
  destruct (String.eqb_spec (key a) (key b)) as [E|E].
  - apply DateFacts.FormatDateOnly_inj in E;
      [| apply real_date_valid; assumption | apply real_date_valid; assumption].
    unfold date in E. injection E as E1 E2 E3. rewrite E1, E2, E3, !Z.eqb_refl. reflexivity.
  - symmetry. destruct (Z.eqb_spec (year (activity_OccursAt a)) (year (activity_OccursAt b))),
      (Z.eqb_spec (month (activity_OccursAt a)) (month (activity_OccursAt b))),
      (Z.eqb_spec (day (activity_OccursAt a)) (day (activity_OccursAt b))); try reflexivity.
    exfalso. apply E. unfold key. apply FormatDateOnly_date. unfold date. congruence.
Qed.

Lemma midnight_key (a b : Activity) :
  real_date (activity_OccursAt a) = true -> real_date (activity_OccursAt b) = true ->
  midnight (activity_OccursAt a) = midnight (activity_OccursAt b) -> key a = key b.
Proof.
  intros Ha Hb E. unfold key. apply FormatDateOnly_date.
  unfold midnight, date in *. injection E as E1 E2 E3. congruence.
Qed.

(** [GET /trips/{tripId}/activities] on activities with real dates: one group
    per calendar date, no two groups with the same date; each group is dated
    at the midnight of its date and lists every activity of that date once,
    in the order the store returned them. *)
Theorem GetTripsTripIDActivities_groups_exact order api tripID w id acts :
  (forall l, Permutation (order l) l) ->
  UUIDs.Parse tripID = Some id ->
  pg_GetTripActivities (w_db w) id = inl acts ->
  Forall (fun a => real_date (activity_OccursAt a) = true) acts ->
  exists groups,
    GetTripsTripIDActivities order api tripID w
      = (Return (mkResponse 200 (BodyActivities groups)), w) /\
    NoDup (map fst groups) /\
    (forall g, In g groups <->
       exists a0, In a0 acts /\
         g = (midnight (activity_OccursAt a0),
              map inner (filter (fun a => same_date (activity_OccursAt a)
                                                    (activity_OccursAt a0)) acts))).
Proof.
  intros Hperm Hp Hq Hreal. rewrite Forall_forall in Hreal.
  unfold GetTripsTripIDActivities. rewrite (UUIDFacts.Parse_Some _ _ Hp). unfold bind, query. rewrite Hq.
  eexists. split; [reflexivity|]. split.
  - destruct (group_fold acts []) as (Hnd & Hkeys & _).
    change (fold_left (fun m a => map_append m (key a) a) acts [])
      with (groupActivities acts) in Hnd, Hkeys.
    specialize (Hnd (NoDup_nil _)).
    eapply Permutation_NoDup.
    + apply Permutation_sym. unfold outputActivities.
      apply Permutation_map, Permutation_map, Hperm.
    + unfold outputActivities. rewrite map_map.
      replace (map (fun x => fst (let '(dateStr, actsOnDate) := x in
                                  (ParseDateOnly dateStr, map inner actsOnDate)))
                   (groupActivities acts))
        with (map ParseDateOnly (map fst (groupActivities acts)))
        by (rewrite map_map; apply map_ext; intros [k v]; reflexivity).
      apply NoDup_map_NoDup_ForallPairs; [|exact Hnd].
      intros k1 k2 H1 H2 E.
      apply Hkeys in H1 as [[] | (a & Ha & <-)].
      apply Hkeys in H2 as [[] | (b & Hb & <-)].
      rewrite !ParseDateOnly_key in E by auto.
      apply midnight_key; auto.
  - intros g. rewrite (in_output _ _ _ Hperm). split.
    + intros (k & (a0 & Ha0 & <-) & ->). exists a0. split; [exact Ha0|].
      rewrite ParseDateOnly_key by auto. f_equal. f_equal.
      apply filter_ext_in. intros a Ha. apply key_eqb_same_date; auto.
    + intros (a0 & Ha0 & ->). exists (key a0). split; [eauto|].
      rewrite ParseDateOnly_key by auto. f_equal. f_equal.
      apply filter_ext_in. intros a Ha. symmetry. apply key_eqb_same_date; auto.
Qed.

End ActivityFacts2.

Module HandlerFacts2.
Import GoTime Journey TripLinks Specs2.

Lemma logs_only_refl (w : World) : logs_only w w.
Proof. exists []. split; [simpl; lia|]. rewrite app_nil_r. destruct w; reflexivity. Qed.

Lemma logs_only_logged (w : World) (e : LogEntry) : logs_only w (logged w e).
Proof. exists [e]. split; [simpl; lia | reflexivity]. Qed.

Lemma outputLinks_map (links : list Link) :
  outputLinks links =
  map (fun link => mkGetLinksResponseArray (UUIDs.String (link_ID link))
                                           (link_Title link) (link_Url link)) links.
Proof.
  unfold outputLinks.
  assert (H : forall acc,
    fold_left (fun out link =>
      (out ++ [mkGetLinksResponseArray (UUIDs.String (link_ID link))
                                       (link_Title link) (link_Url link)])%list) links acc
    = (acc ++ map (fun link => mkGetLinksResponseArray (UUIDs.String (link_ID link))
                                  (link_Title link) (link_Url link)) links)%list).
  { induction links as [|l links IH]; intros acc; simpl.
    - rewrite app_nil_r. reflexivity.
    - rewrite IH, <- app_assoc. reflexivity. }
  apply H.
Qed.

(** The GET handlers never write: [GetTripsTripID],
    [GetTripsTripIDActivities] and [GetTripsTripIDLinks] leave the store,
    the goroutines, the mail transport and the outbox as they are, and at
    most append one line to the log, whatever the input and whatever the
    store answers. *)
Theorem GET_handlers_only_log order api GetTripLinks (tripID : string) (w : World) :
  logs_only w (snd (GetTripsTripID api tripID w)) /\
  logs_only w (snd (GetTripsTripIDActivities order api tripID w)) /\
  logs_only w (snd (GetTripsTripIDLinks GetTripLinks tripID w)).
Proof.
  unfold GetTripsTripID, GetTripsTripIDActivities, GetTripsTripIDLinks, UUIDs.Parse, bind, query, ret.
  destruct (UUIDs.Parse_full tripID) as [id|e].
  - split; [|split].
    + destruct (pg_GetTrip (w_db w) id) as [t|e]; [apply logs_only_refl|].
      destruct (is_ErrNoRows e); [apply logs_only_refl | apply logs_only_logged].
    + destruct (pg_GetTripActivities (w_db w) id) as [acts|e]; [apply logs_only_refl|].
      destruct (is_ErrNoRows e); apply logs_only_logged.
    + destruct (GetTripLinks (w_db w) id) as [ls|e]; [apply logs_only_refl|].
      destruct (is_ErrNoRows e); [apply logs_only_refl | apply logs_only_logged].
  - split; [|split]; [apply logs_only_logged | apply logs_only_logged | apply logs_only_refl].
Qed.

(** A path parameter [uuid.Parse] rejects never reaches the store: every
    handler taking an ID answers 400 at once, whatever the body. The
    participant and links handlers leave the world as it is; the other four
    only log "failed to parse trip id" with the error [uuid.Parse]
    returned and the parameter. *)
Theorem malformed_id_rejected order api GetTripLinks (id_str : string)
  (ubody : option UpdateTripRequest) (abody : option CreateActivityRequest) (w : World)
  (e : UUIDs.ParseError) :
  UUIDs.Parse_full id_str = inr e ->
  let w1 := logged w (mkLogEntry "failed to parse trip id"
                        [("error", FUUIDError e); ("trip_id", FString id_str)]) in
  PatchParticipantsParticipantIDConfirm api id_str w = (JSON400 "uuid inválido", w) /\
  GetTripsTripID api id_str w = (JSON400 "invalid trip id", w1) /\
  PutTripsTripID api id_str ubody w = (JSON400 "invalid trip id", w1) /\
  GetTripsTripIDActivities order api id_str w = (JSON400 "invalid trip id", w1) /\
  PostTripsTripIDActivities api id_str abody w = (JSON400 "invalid trip id", w1) /\
  GetTripsTripIDLinks GetTripLinks id_str w = (LinksJSON400 "invalid trip id", w).
Proof.
  intros Hp. cbv zeta.
  assert (Hn : UUIDs.Parse id_str = None) by (unfold UUIDs.Parse; rewrite Hp; reflexivity).
  unfold PatchParticipantsParticipantIDConfirm, GetTripsTripID, PutTripsTripID,
    GetTripsTripIDActivities, PostTripsTripIDActivities, GetTripsTripIDLinks.
  rewrite Hp, Hn. repeat split.
Qed.

(** [PutTripsTripID] looks the trip up before it reads the body: a trip
    the store does not have is reported as "trip not found" whatever the
    body, and when the trip is there, a body that does not decode or does
    not validate is rejected without writing anything. *)
Theorem PutTripsTripID_checks_trip_first api (tripID : string) (id : UUID)
  (body : option UpdateTripRequest) (w : World) :
  UUIDs.Parse tripID = Some id ->
  (pg_GetTrip (w_db w) id = inr ErrNoRows ->
     PutTripsTripID api tripID body w = (JSON400 "trip not found", w)) /\
  (forall t, pg_GetTrip (w_db w) id = inl t ->
     (body = None -> PutTripsTripID api tripID body w = (JSON400 "invalid JSON", w)) /\
     (forall b msg, body = Some b -> validate_UpdateTripRequest api b = Some msg ->
        PutTripsTripID api tripID body w = (JSON400 ("invalid input: " ++ msg), w))).
Proof.
  intros Hp. unfold PutTripsTripID, bind, query. rewrite (UUIDFacts.Parse_Some _ _ Hp). split.
  - intros Hg. rewrite Hg. reflexivity.
  - intros t Hg. rewrite Hg. split.
    + intros ->. reflexivity.
    + intros b msg -> Hv. rewrite Hv. reflexivity.
Qed.

(** A request body that does not decode or does not validate is rejected
    with no effect at all: [PostTrips] then neither creates a trip nor
    starts the owner e-mail goroutine, and [PostTripsTripIDActivities]
    creates no activity. *)
Theorem bad_body_no_effect api (w : World) (b : CreateTripRequest) (msg : string)
  (tripID : string) (id : UUID) (c : CreateActivityRequest) (msg' : string) :
  PostTrips api None w = (JSON400 "invalid JSON", w) /\
  (validate_CreateTripRequest api b = Some msg ->
     PostTrips api (Some b) w = (JSON400 ("invalid input: " ++ msg), w)) /\
  (UUIDs.Parse tripID = Some id ->
     PostTripsTripIDActivities api tripID None w = (JSON400 "invalid JSON", w) /\
     (validate_CreateActivityRequest api c = Some msg' ->
        PostTripsTripIDActivities api tripID (Some c) w
          = (JSON400 ("invalid input: " ++ msg'), w))).
Proof.
  split; [reflexivity|]. split.
  - intros Hv. unfold PostTrips. rewrite Hv. reflexivity.
  - intros Hp. unfold PostTripsTripIDActivities. rewrite (UUIDFacts.Parse_Some _ _ Hp). split; [reflexivity|].
    intros Hv. rewrite Hv. reflexivity.
Qed.

(** [GetTripsTripIDLinks] on links the store returns answers 200 with one
    entry per link, in the store's order: its ID is the link's ID in the
    canonical text form (which [uuid.Parse] reads back), with the link's
    title and URL; nothing but the answer changes. *)
Theorem GetTripsTripIDLinks_lists_links GetTripLinks (tripID : string) (id : UUID)
  (w : World) (links : list Link) :
  UUIDs.Parse tripID = Some id ->
  GetTripLinks (w_db w) id = inl links ->
  exists out,
    GetTripsTripIDLinks GetTripLinks tripID w = (mkLinksResponse 200 (LinksBodyLinks out), w) /\
    length out = length links /\
    (forall i link, nth_error links i = Some link ->
       exists e, nth_error out i = Some e /\
         UUIDs.Parse (gl_ID e) = Some (link_ID link) /\
         gl_Title e = link_Title link /\ gl_URL e = link_Url link).
Proof.
  intros Hp Hq. unfold GetTripsTripIDLinks, bind, query. rewrite Hp, Hq.
  eexists. split; [reflexivity|]. rewrite outputLinks_map. split.
  - apply length_map.
  - intros i link Hi. eexists. rewrite nth_error_map, Hi. split; [reflexivity|].
    cbn. split; [apply UUIDFacts.Parse_String | split; reflexivity].
Qed.

End HandlerFacts2.

Module MailFacts2.
Import GoTime Journey MailPit.

Lemma NewClient_mailpit : NewClient "mailpit" 1025 = None.
Proof. reflexivity. Qed.

Ltac splits := repeat match goal with |- _ /\ _ => split | |- _ <-> _ => split end.

Lemma SendConfirm_spec (ParseAddress : string -> bool) (tripId : UUID) (w : World) :
  let '(err, w') := SendConfirmTripEmailToTripOwner ParseAddress tripId w in
  w_db w' = w_db w /\ w_spawned w' = w_spawned w /\ w_log w' = w_log w /\
  w_pending w' = w_pending w /\
  match pg_GetTrip (w_db w) tripId with
  | inr _ => err <> None /\ w' = w
  | inl trip =>
      let addr_ok := ParseAddress From && ParseAddress (trip_OwnerEmail trip) in
      let ok := addr_ok && w_net w (w_dials w) in
      (err = None <-> ok = true) /\
      w_dials w' = (if addr_ok then S (w_dials w) else w_dials w) /\
      exists body,
        w_outbox w' = (w_outbox w ++
          (if ok then [mkMsg From (trip_OwnerEmail trip) "Confirme sua viagem" body]
           else []))%list
  end.
Proof.
  unfold SendConfirmTripEmailToTripOwner, bind, query, ret, wrap.
  destruct (pg_GetTrip (w_db w) tripId) as [trip|e].
  2: { cbn. splits; try reflexivity. discriminate. }
  cbv zeta.
  destruct (ParseAddress From) eqn:HF; cbn [negb andb].
  2: { splits; try reflexivity; try discriminate. exists "". cbn. rewrite app_nil_r. reflexivity. }
  destruct (ParseAddress (trip_OwnerEmail trip)) eqn:HE; cbn [negb andb].
  2: { splits; try reflexivity; try discriminate. exists "". cbn. rewrite app_nil_r. reflexivity. }
  rewrite NewClient_mailpit. unfold DialAndSend.
  destruct (w_net w (w_dials w)) eqn:HN; cbn.
  - splits; try reflexivity. eexists. reflexivity.
  - splits; try reflexivity; try discriminate. exists "". rewrite app_nil_r. reflexivity.
Qed.

(** [SendConfirmTripEmailToTripOwner] sends at most one e-mail, to the
    trip owner: when the trip cannot be read it fails and changes nothing;
    otherwise it dials the mail server once if both addresses are accepted,
    and it succeeds exactly when the message, from mailpit@journey.com to
    the owner with subject "Confirme sua viagem", is delivered. It never
    writes to the store or the log and starts no goroutine. *)
Theorem SendConfirmTripEmailToTripOwner_one_mail (ParseAddress : string -> bool)
  (tripId : UUID) (w : World) :
  let '(err, w') := SendConfirmTripEmailToTripOwner ParseAddress tripId w in
  w_db w' = w_db w /\ w_spawned w' = w_spawned w /\ w_log w' = w_log w /\
  w_pending w' = w_pending w /\
  match pg_GetTrip (w_db w) tripId with
  | inr _ => err <> None /\ w' = w
  | inl trip =>
      let addr_ok := ParseAddress From && ParseAddress (trip_OwnerEmail trip) in
      let ok := addr_ok && w_net w (w_dials w) in
      (err = None <-> ok = true) /\
      w_dials w' = (if addr_ok then S (w_dials w) else w_dials w) /\
      exists body,
        w_outbox w' = (w_outbox w ++
          (if ok then [mkMsg From (trip_OwnerEmail trip) "Confirme sua viagem" body]
           else []))%list
  end.
Proof. exact (SendConfirm_spec ParseAddress tripId w). Qed.

Lemma sendLoop_frame (ParseAddress : string -> bool) (ps : list Participant) (w : World) :
  let w' := snd (sendLoop ParseAddress ps w) in
  w_db w' = w_db w /\ w_spawned w' = w_spawned w /\ w_log w' = w_log w /\
  w_pending w' = w_pending w.
Proof.
  revert w. induction ps as [|p ps IH]; intros w; cbn [sendLoop]; [repeat split|].
  destruct (ParseAddress From); cbn [negb]; [|repeat split].
  destruct (ParseAddress (participant_Email p)); cbn [negb]; [|repeat split].
  unfold bind, DialAndSend. destruct (w_net w (w_dials w)); [|repeat split].
  match goal with |- context [sendLoop _ ps ?w1] => exact (IH w1) end.
Qed.

(** [SendTripConfirmedEmails] never writes to the store or the log and
    starts no goroutine; when the participants cannot be read it fails
    without dialing; a trip without participants succeeds without dialing
    and without sending anything. *)
Theorem SendTripConfirmedEmails_edges (ParseAddress : string -> bool) (tripId : UUID)
  (w : World) :
  let '(err, w') := SendTripConfirmedEmails ParseAddress tripId w in
  w_db w' = w_db w /\ w_spawned w' = w_spawned w /\ w_log w' = w_log w /\
  w_pending w' = w_pending w /\
  (forall e, pg_GetParticipants (w_db w) tripId = inr e -> err <> None /\ w' = w) /\
  (pg_GetParticipants (w_db w) tripId = inl [] -> err = None /\ w' = w).
Proof.
  unfold SendTripConfirmedEmails, bind, query, wrap.
  destruct (pg_GetParticipants (w_db w) tripId) as [ps|e] eqn:Hg.
  - rewrite NewClient_mailpit.
    pose proof (sendLoop_frame ParseAddress ps w) as Hf.
    destruct (sendLoop ParseAddress ps w) as [err w'] eqn:Hs. cbn in Hf.
    destruct Hf as (H1 & H2 & H3 & H4).
    split; [exact H1|]. split; [exact H2|]. split; [exact H3|]. split; [exact H4|]. split.
    + intros e' E. discriminate.
    + intros E. injection E as ->. cbn in Hs. injection Hs as <- <-. split; reflexivity.
  - cbn. split; [reflexivity|]. split; [reflexivity|]. split; [reflexivity|].
    split; [reflexivity|]. split.
    + intros e' _. split; [discriminate | reflexivity].
    + intros E. discriminate.
Qed.

End MailFacts2.

Module CompositionFacts.
Import GoTime Journey MailPit Specs ActivityFacts MailPitFacts MailFacts2.

Lemma pg_CreateActivity_ok (db d : DB) (p : CreateActivityParams) (id : UUID) :
  pg_CreateActivity db p = (d, (id, None)) ->
  db_up d = true /\
  db_activities d = (db_activities db ++
    [mkActivity id (cap_TripID p) (cap_Title p) (cap_OccursAt p)])%list.
Proof.
  unfold pg_CreateActivity. destruct (db_up db) eqn:Hup; [|discriminate]. simpl.
  destruct (trip_exists db (cap_TripID p)); [|discriminate]. simpl.
  destruct (existsb _ _); [discriminate|].
  intros H. injection H as <- <-. split; reflexivity.
Qed.

(** [POST /trips/{tripId}/activities] then [GET /trips/{tripId}/activities]:
    once the creation answers 201 with an ID, the listing of the same trip
    on the resulting world answers 200 with a group holding that activity,
    under its title and time. *)
Theorem create_activity_then_listed order api tripID body w s w1 :
  (forall l, Permutation (order l) l) ->
  PostTripsTripIDActivities api tripID (Some body) w =
    (Return (mkResponse 201 (BodyCreateActivity s)), w1) ->
  exists groups,
    GetTripsTripIDActivities order api tripID w1 =
      (Return (mkResponse 200 (BodyActivities groups)), w1) /\
    exists g, In g groups /\ In (s, car_Title body, car_OccursAt body) (snd g).
Proof.
  intros Hperm H.
  unfold PostTripsTripIDActivities, bind, exec, ret in H.
  destruct (UUIDs.Parse_full tripID) as [id|] eqn:Hp; [|discriminate H].
  destruct (validate_CreateActivityRequest api body); [discriminate H|].
  destruct (pg_CreateActivity (w_db w) (mkCreateActivityParams id (car_Title body) (car_OccursAt body)))
    as [d [aid [e|]]] eqn:Hc.
  { destruct (is_ErrNoRows e); [discriminate H|].
    unfold log_Error in H. discriminate H. }
  injection H as Hs <-.
  apply pg_CreateActivity_ok in Hc as [Hup Hacts]. cbn in Hacts.
  set (new := mkActivity aid id (car_Title body) (car_OccursAt body)) in Hacts.
  set (acts := filter (fun a => UUIDs.UUID_eqb (activity_TripID a) id) (db_activities d)).
  assert (Hq : pg_GetTripActivities (w_db (set_db d w)) id = inl acts)
    by (unfold pg_GetTripActivities; cbn; rewrite Hup; reflexivity).
  assert (Hin : In new acts).
  { apply filter_In. split.
    - rewrite Hacts. apply in_or_app. right. left. reflexivity.
    - apply JourneyFacts.UUID_eqb_spec. reflexivity. }
  unfold GetTripsTripIDActivities, bind, query, ret. rewrite Hp.
  cbv beta. rewrite Hq.
  eexists. split; [reflexivity|].
  exists (ParseDateOnly (key new), map inner (filter (fun a => String.eqb (key a) (key new)) acts)).
  split.
  - apply (in_output order acts _ Hperm). exists (key new). split; [exists new; auto|reflexivity].
  - simpl snd. apply in_inner_filter. exists new. splits; try reflexivity; try exact Hin.
    rewrite <- Hs. reflexivity.
Qed.

(** [POST /trips] with the MailPit mailer: after a 201 with a trip ID, the
    resulting database holds, under that ID, the trip the request
    describes, not confirmed. If the scheduler runs the goroutine at once, the outbox
    gains the confirmation mail to the request's owner exactly when both
    addresses parse and the dial succeeds, and nothing otherwise. If not,
    the outbox is unchanged and the send is left pending. *)
Theorem PostTrips_owner_email (ParseAddress : string -> bool) v1 v2 v3
  (req : CreateTripRequest) (w w1 : World) (tripID : string) :
  PostTrips (mailpit_api ParseAddress v1 v2 v3) (Some req) w =
    (Return (mkResponse 201 (BodyCreateTrip tripID)), w1) ->
  exists id, tripID = UUIDs.String id /\
  find_trip (w_db w1) id =
    Some (mkTrip id (ctr_Destination req) (ctr_OwnerEmail req) (ctr_OwnerName req)
                 (ctr_StartsAt req) (ctr_EndsAt req) false) /\
  (w_sched w (length (w_spawned w)) = true ->
     exists body, w_outbox w1 = (w_outbox w ++
       (if ParseAddress From && ParseAddress (ctr_OwnerEmail req) && w_net w (w_dials w)
        then [mkMsg From (ctr_OwnerEmail req) "Confirme sua viagem" body] else []))%list) /\
  (w_sched w (length (w_spawned w)) = false ->
     w_outbox w1 = w_outbox w /\
     w_pending w1 = (w_pending w ++ [GoSendConfirmTripEmailToTripOwner id])%list).
Proof.
  intros H. set (api := mailpit_api ParseAddress v1 v2 v3) in H.
  unfold PostTrips in H.
  change (validate_CreateTripRequest api req) with (v1 req) in H.
  destruct (v1 req); [discriminate H|].
  unfold bind, exec in H.
  destruct (pg_CreateTrip (w_db w) req) as [d [id e]] eqn:Hc.
  destruct (go api (GoSendConfirmTripEmailToTripOwner id) (set_db d w)) as [u wg] eqn:Hg.
  destruct e as [e|].
  { unfold log_Error, ret in H. discriminate H. }
  unfold ret in H. injection H as Hs <-.
  exists id. split; [symmetry; exact Hs|].
  apply pg_CreateTrip_ok in Hc as [Hup Ht].
  unfold go in Hg. cbn [w_sched w_spawned set_db] in Hg.
  destruct (w_sched w (length (w_spawned w))) eqn:Hsch.
  - unfold run_task, bind in Hg.
    set (w2 := mkWorld _ _ _ _ _ _ _ _) in Hg.
    pose proof (SendConfirm_spec ParseAddress id w2) as Hspec.
    change (mailer_SendConfirmTripEmailToTripOwner api id)
      with (SendConfirmTripEmailToTripOwner ParseAddress id) in Hg.
    destruct (SendConfirmTripEmailToTripOwner ParseAddress id w2) as [err w3].
    assert (Ho : w_outbox wg = w_outbox w3 /\ w_db wg = w_db w3)
      by (destruct err; unfold log_Error, ret in Hg; injection Hg as _ <-; split; reflexivity).
    destruct Hspec as (Hd3 & _ & _ & _ & Hm).
    assert (Hg2 : pg_GetTrip (w_db w2) id = inl (mkTrip id (ctr_Destination req) (ctr_OwnerEmail req)
                                (ctr_OwnerName req) (ctr_StartsAt req) (ctr_EndsAt req) false)).
    { unfold pg_GetTrip, w2, set_db. cbn [w_db]. rewrite Hup, Ht. reflexivity. }
    rewrite Hg2 in Hm. cbn zeta in Hm. destruct Hm as (_ & _ & body & Hb).
    split; [|split; [|discriminate]].
    + rewrite (proj2 Ho), Hd3. unfold w2, set_db. cbn [w_db]. exact Ht.
    + intros _. exists body. rewrite (proj1 Ho), Hb. reflexivity.
  - injection Hg as _ <-. split; [exact Ht|]. split; [discriminate|].
    intros _. split; reflexivity.
Qed.

End CompositionFacts.

Module UUIDForms.
Import UUIDFacts.

(** [uuid.Parse] as the handlers call it: it reads the canonical form
    [String] writes back to the same UUID, also after a 9-byte prefix
    equal to ["urn:uuid:"] up to letter case, and between any two
    bracketing bytes (which it does not inspect); a string it accepts
    always has one of the lengths 32, 36, 38 or 45. *)
Theorem Parse_accepted_forms (u : UUIDs.UUID) :
  UUIDs.Parse (UUIDs.String u) = Some u /\
  (forall p, String.length p = 9%nat -> UUIDs.equal_fold p "urn:uuid:" = true ->
     UUIDs.Parse (p ++ UUIDs.String u) = Some u) /\
  (forall c1 c2, UUIDs.Parse (String c1 (UUIDs.String u ++ String c2 EmptyString)) = Some u) /\
  (forall s v, UUIDs.Parse s = Some v ->
     In (String.length s) [32; 36; 38; 45]%nat).
Proof.
  split; [apply Parse_String|]. split; [|split].
  - intros p Hp Hf.
    do 9 (destruct p as [|? p]; [discriminate Hp|cbn in Hp; injection Hp as Hp]).
    destruct p; [|discriminate Hp].
    destruct u as [c0 c1 c2 c3 c4 c5 c6 c7 c8 c9 c10 c11 c12 c13 c14 c15].
    unfold UUIDs.Parse, UUIDs.Parse_full, UUIDs.or_format, UUIDs.parse36, UUIDs.decode16,
      UUIDs.String, UUIDs.hex2.
    cbn -[UUIDs.xtob UUIDs.hextable N.shiftr N.land Byte.to_N UUIDs.equal_fold].
    rewrite Hf. cbn -[UUIDs.xtob UUIDs.hextable N.shiftr N.land Byte.to_N].
    rewrite !xtob_hex2. reflexivity.
  - intros a z.
    destruct u as [c0 c1 c2 c3 c4 c5 c6 c7 c8 c9 c10 c11 c12 c13 c14 c15].
    unfold UUIDs.Parse, UUIDs.Parse_full, UUIDs.or_format, UUIDs.parse36, UUIDs.decode16,
      UUIDs.String, UUIDs.hex2.
    cbn -[UUIDs.xtob UUIDs.hextable N.shiftr N.land Byte.to_N].
    rewrite !xtob_hex2. reflexivity.
  - intros s v. unfold UUIDs.Parse, UUIDs.Parse_full.
    destruct (String.length s) as [|n] eqn:Hl; [discriminate|].
    do 45 (destruct n as [|n]; [try discriminate; intros; cbn; tauto|]).
    discriminate.
Qed.

End UUIDForms.

Module DateForms.
Import GoTime Journey Specs DateRoundTrip ActivityFacts2.

(** [time.Parse(time.DateOnly, t.Format(time.DateOnly))], the round trip
    [GetTripsTripIDActivities] makes through its map keys: a real calendar
    date of a year 0 to 9999 comes back as midnight of the same day, the
    clock dropped; a year outside that range is printed with a width the
    parser refuses, and the zero [time.Time] comes back. *)
Theorem FormatDateOnly_ParseDateOnly_roundtrip (t : Time) :
  (real_date t = true -> ParseDateOnly (FormatDateOnly t) = midnight t) /\
  ((year t < 0 \/ 9999 < year t)%Z -> ParseDateOnly (FormatDateOnly t) = ZeroTime).
Proof.
  split.
  - intros H. apply real_date_spec in H as (Hy & Hm & Hd).
    unfold midnight. apply ParseDateOnly_FormatDateOnly_aux; assumption.
  - apply ParseDateOnly_FormatDateOnly_far.
Qed.

End DateForms.

Module UUIDErrors.



End UUIDErrors.

(* ================================================================== *)
(** * The theorems at concrete inputs *)

Module Witnesses.
Import GoTime Journey MailPit Specs Examples.

Lemma confirm_participant_twice_witness :
  UUIDs.Parse (UUIDs.String (uuid_n 2)) = Some (uuid_n 2) /\
  db_up (w_db (world db0)) = true /\
  find_participant (w_db (world db0)) (uuid_n 2) = Some participant0 /\
  let '(o1, w1) := PatchParticipantsParticipantIDConfirm api0 (UUIDs.String (uuid_n 2)) (world db0) in
  let '(o2, w2) := PatchParticipantsParticipantIDConfirm api0 (UUIDs.String (uuid_n 2)) w1 in
  o2 = JSON400 "participante já confirmado" /\ w2 = w1 /\
  (exists p1, find_participant (w_db w1) (uuid_n 2) = Some p1 /\ participant_IsConfirmed p1 = true) /\
  (o1 = JSON204 <-> participant_IsConfirmed participant0 = false) /\
  (participant_IsConfirmed participant0 = true ->
     o1 = JSON400 "participante já confirmado" /\ w1 = world db0).
Proof.
  assert (H1 : UUIDs.Parse (UUIDs.String (uuid_n 2)) = Some (uuid_n 2)) by (vm_compute; reflexivity).
  assert (H2 : db_up (w_db (world db0)) = true) by reflexivity.
  assert (H3 : find_participant (w_db (world db0)) (uuid_n 2) = Some participant0)
    by (vm_compute; reflexivity).
  exact (conj H1 (conj H2 (conj H3
    (JourneyFacts.confirm_participant_twice api0 (world db0) (UUIDs.String (uuid_n 2))
       (uuid_n 2) participant0 H1 H2 H3)))).
Defined.

Lemma confirm_participant_not_found_witness :
  UUIDs.Parse (UUIDs.String (uuid_n 5)) = Some (uuid_n 5) /\
  db_up (w_db (world db0)) = true /\
  find_participant (w_db (world db0)) (uuid_n 5) = None /\
  PatchParticipantsParticipantIDConfirm api0 (UUIDs.String (uuid_n 5)) (world db0) =
  (Return (mkResponse 400 (BodyError "participante não encontrado")), world db0).
Proof.
  assert (H1 : UUIDs.Parse (UUIDs.String (uuid_n 5)) = Some (uuid_n 5)) by (vm_compute; reflexivity).
  assert (H2 : db_up (w_db (world db0)) = true) by reflexivity.
  assert (H3 : find_participant (w_db (world db0)) (uuid_n 5) = None) by (vm_compute; reflexivity).
  exact (conj H1 (conj H2 (conj H3
    (JourneyFacts.confirm_participant_not_found api0 (world db0) (UUIDs.String (uuid_n 5))
       (uuid_n 5) H1 H2 H3)))).
Defined.

Lemma create_then_get_trip_witness :
  PostTrips api1 (Some req0) (world db0) =
    (Return (mkResponse 201 (BodyCreateTrip (UUIDs.String (uuid_n 10)))),
     snd (PostTrips api1 (Some req0) (world db0))) /\
  fst (GetTripsTripID api1 (UUIDs.String (uuid_n 10)) (snd (PostTrips api1 (Some req0) (world db0)))) =
    Return (mkResponse 200 (BodyTripDetails (ctr_Destination req0) (ctr_EndsAt req0)
                                            (UUIDs.String (uuid_n 10)) false (ctr_StartsAt req0))).
Proof.
  assert (H : PostTrips api1 (Some req0) (world db0) =
    (Return (mkResponse 201 (BodyCreateTrip (UUIDs.String (uuid_n 10)))),
     snd (PostTrips api1 (Some req0) (world db0)))) by (vm_compute; reflexivity).
  exact (conj H (PostTripsFacts.create_then_get_trip (fun _ => true) (fun _ => None)
    (fun _ => None) (fun _ => None) (world db0) req0 (UUIDs.String (uuid_n 10))
    (snd (PostTrips api1 (Some req0) (world db0))) H)).
Defined.

Lemma PostTrips_mails_owner_even_on_failure_witness :
  let r := pg_CreateTrip (w_db (world db_down)) req0 in
  (fun (_ : CreateTripRequest) => @None string) req0 = None /\
  pg_CreateTrip (w_db (world db_down)) req0 = (fst r, (fst (snd r), snd (snd r))) /\
  snd (snd r) <> None /\
  let '(o, w') := PostTrips api1 (Some req0) (world db_down) in
  w_spawned w' = (w_spawned (world db_down) ++ [GoSendConfirmTripEmailToTripOwner (fst (snd r))])%list /\
  (snd (snd r) <> None -> o = JSON400 "something went wrong, try again").
Proof.
  cbv zeta.
  assert (H1 : (fun (_ : CreateTripRequest) => @None string) req0 = None) by reflexivity.
  assert (H2 : pg_CreateTrip (w_db (world db_down)) req0 =
    (fst (pg_CreateTrip (w_db (world db_down)) req0),
     (fst (snd (pg_CreateTrip (w_db (world db_down)) req0)),
      snd (snd (pg_CreateTrip (w_db (world db_down)) req0))))) by (vm_compute; reflexivity).
  assert (H3 : snd (snd (pg_CreateTrip (w_db (world db_down)) req0)) <> None)
    by (vm_compute; discriminate).
  exact (conj H1 (conj H2 (conj H3
    (PostTripsFacts.PostTrips_mails_owner_even_on_failure (fun _ => true)
       (fun _ => None) (fun _ => None) (fun _ => None) req0 (world db_down) _ _ _ H1 H2)))).
Defined.

Lemma GetTripsTripIDActivities_groups_by_date_witness :
  (forall l, Permutation ((fun l : list (string * list Activity) => l) l) l) /\
  UUIDs.Parse (UUIDs.String (uuid_n 1)) = Some (uuid_n 1) /\
  pg_GetTripActivities (w_db (world db1)) (uuid_n 1) = inl [act1; act2] /\
  Forall (fun a => valid_time (activity_OccursAt a) = true) [act1; act2] /\
  exists groups,
    GetTripsTripIDActivities (fun l => l) api0 (UUIDs.String (uuid_n 1)) (world db1)
      = (Return (mkResponse 200 (BodyActivities groups)), world db1) /\
    (forall g x, In g groups -> In x (snd g) -> exists a, In a [act1; act2] /\ x = inner a) /\
    (forall a, In a [act1; act2] -> exists g, In g groups /\ In (inner a) (snd g)) /\
    (forall a b, In a [act1; act2] -> In b [act1; act2] ->
       ((exists g, In g groups /\ In (inner a) (snd g) /\ In (inner b) (snd g))
        <-> date (activity_OccursAt a) = date (activity_OccursAt b))).
Proof.
  assert (H1 : forall l, Permutation ((fun l : list (string * list Activity) => l) l) l)
    by (intros l; apply Permutation_refl).
  assert (H2 : UUIDs.Parse (UUIDs.String (uuid_n 1)) = Some (uuid_n 1)) by (vm_compute; reflexivity).
  assert (H3 : pg_GetTripActivities (w_db (world db1)) (uuid_n 1) = inl [act1; act2])
    by (vm_compute; reflexivity).
  assert (H4 : Forall (fun a => valid_time (activity_OccursAt a) = true) [act1; act2])
    by (constructor; [reflexivity | constructor; [reflexivity | constructor]]).
  exact (conj H1 (conj H2 (conj H3 (conj H4
    (ActivityFacts.GetTripsTripIDActivities_groups_by_date (fun l => l) api0
       (UUIDs.String (uuid_n 1)) (world db1) (uuid_n 1) [act1; act2] H1 H2 H3 H4))))).
Defined.

Lemma SendTripConfirmedEmails_sequential_witness :
  pg_GetParticipants (w_db world3) (uuid_n 1) = inl [participant0; participant_b; participant_c] /\
  (let '(err, w') := SendTripConfirmedEmails (fun _ => true) (uuid_n 1) world3 in
   exists k, k <= length [participant0; participant_b; participant_c] /\
    w_outbox w' = (w_outbox world3 ++
                   map confirmedMsg (firstn k [participant0; participant_b; participant_c]))%list /\
    (forall i p, i < k -> nth_error [participant0; participant_b; participant_c] i = Some p ->
                 attempt_ok (fun _ => true) world3 i p = true) /\
    (err = None <-> k = length [participant0; participant_b; participant_c]) /\
    (err <> None -> exists p, nth_error [participant0; participant_b; participant_c] k = Some p /\
                              attempt_ok (fun _ => true) world3 k p = false)) /\
  fst (SendTripConfirmedEmails (fun _ => true) (uuid_n 1) world3) <> None /\
  w_outbox (snd (SendTripConfirmedEmails (fun _ => true) (uuid_n 1) world3))
    = [confirmedMsg participant0] /\
  attempt_ok (fun _ => true) world3 1 participant_b = false.
Proof.
  assert (H : pg_GetParticipants (w_db world3) (uuid_n 1)
              = inl [participant0; participant_b; participant_c])
    by (vm_compute; reflexivity).
  split; [exact H|]. split.
  - exact (SendFacts.SendTripConfirmedEmails_sequential (fun _ => true) (uuid_n 1)
             world3 [participant0; participant_b; participant_c] H).
  - split; [vm_compute; discriminate|]. split; vm_compute; reflexivity.
Defined.

Lemma PostTripsTripIDActivities_missing_trip_witness :
  UUIDs.Parse (UUIDs.String (uuid_n 7)) = Some (uuid_n 7) /\
  validate_CreateActivityRequest api0 activity_req0 = None /\
  db_up (w_db (world db0)) = true /\
  trip_exists (w_db (world db0)) (uuid_n 7) = false /\
  fst (PostTripsTripIDActivities api0 (UUIDs.String (uuid_n 7)) (Some activity_req0) (world db0))
    = JSON400 "something went wrong, try again".
Proof.
  assert (H1 : UUIDs.Parse (UUIDs.String (uuid_n 7)) = Some (uuid_n 7)) by (vm_compute; reflexivity).
  assert (H2 : validate_CreateActivityRequest api0 activity_req0 = None) by reflexivity.
  assert (H3 : db_up (w_db (world db0)) = true) by reflexivity.
  assert (H4 : trip_exists (w_db (world db0)) (uuid_n 7) = false) by (vm_compute; reflexivity).
  exact (conj H1 (conj H2 (conj H3 (conj H4
    (HandlerFacts.PostTripsTripIDActivities_missing_trip api0 (UUIDs.String (uuid_n 7))
       (uuid_n 7) activity_req0 (world db0) H1 H2 H3 H4))))).
Defined.

End Witnesses.


Module Witnesses2.
Import GoTime Journey MailPit Specs Examples TripLinks Specs2 Examples2.

Lemma GetTripsTripIDActivities_groups_exact_witness :
  (forall l, Permutation ((fun l : list (string * list Activity) => l) l) l) /\
  UUIDs.Parse (UUIDs.String (uuid_n 1)) = Some (uuid_n 1) /\
  pg_GetTripActivities (w_db (world db1)) (uuid_n 1) = inl [act1; act2] /\
  Forall (fun a => real_date (activity_OccursAt a) = true) [act1; act2] /\
  exists groups,
    GetTripsTripIDActivities (fun l => l) api0 (UUIDs.String (uuid_n 1)) (world db1)
      = (Return (mkResponse 200 (BodyActivities groups)), world db1) /\
    NoDup (map fst groups) /\
    (forall g, In g groups <->
       exists a0, In a0 [act1; act2] /\
         g = (midnight (activity_OccursAt a0),
              map inner (filter (fun a => same_date (activity_OccursAt a)
                                                    (activity_OccursAt a0)) [act1; act2]))).
Proof.
  assert (H1 : forall l, Permutation ((fun l : list (string * list Activity) => l) l) l)
    by (intros l; apply Permutation_refl).
  assert (H2 : UUIDs.Parse (UUIDs.String (uuid_n 1)) = Some (uuid_n 1)) by (vm_compute; reflexivity).
  assert (H3 : pg_GetTripActivities (w_db (world db1)) (uuid_n 1) = inl [act1; act2])
    by (vm_compute; reflexivity).
  assert (H4 : Forall (fun a => real_date (activity_OccursAt a) = true) [act1; act2])
    by (constructor; [reflexivity|constructor; [reflexivity|constructor]]).
  exact (conj H1 (conj H2 (conj H3 (conj H4
    (ActivityFacts2.GetTripsTripIDActivities_groups_exact _ api0 _ (world db1) _ _ H1 H2 H3 H4))))).
Defined.

Lemma malformed_id_rejected_witness :
  UUIDs.Parse_full "abc" = inr (UUIDs.InvalidLength 3) /\
  let w1 := logged (world db0) (mkLogEntry "failed to parse trip id"
                        [("error", FUUIDError (UUIDs.InvalidLength 3)); ("trip_id", FString "abc")]) in
  PatchParticipantsParticipantIDConfirm api0 "abc" (world db0) = (JSON400 "uuid inválido", world db0) /\
  GetTripsTripID api0 "abc" (world db0) = (JSON400 "invalid trip id", w1) /\
  PutTripsTripID api0 "abc" None (world db0) = (JSON400 "invalid trip id", w1) /\
  GetTripsTripIDActivities (fun l => l) api0 "abc" (world db0) = (JSON400 "invalid trip id", w1) /\
  PostTripsTripIDActivities api0 "abc" None (world db0) = (JSON400 "invalid trip id", w1) /\
  GetTripsTripIDLinks (fun _ _ => inl links0) "abc" (world db0)
    = (LinksJSON400 "invalid trip id", world db0).
Proof.
  assert (H1 : UUIDs.Parse_full "abc" = inr (UUIDs.InvalidLength 3)) by (vm_compute; reflexivity).
  exact (conj H1 (HandlerFacts2.malformed_id_rejected (fun l => l) api0 (fun _ _ => inl links0)
                    "abc" None None (world db0) _ H1)).
Defined.

Lemma PutTripsTripID_checks_trip_first_witness :
  UUIDs.Parse (UUIDs.String (uuid_n 1)) = Some (uuid_n 1) /\
  pg_GetTrip (w_db (world db0)) (uuid_n 1) = inl trip0 /\
  PutTripsTripID api0 (UUIDs.String (uuid_n 1)) None (world db0)
    = (JSON400 "invalid JSON", world db0).
Proof.
  assert (H1 : UUIDs.Parse (UUIDs.String (uuid_n 1)) = Some (uuid_n 1)) by (vm_compute; reflexivity).
  assert (H2 : pg_GetTrip (w_db (world db0)) (uuid_n 1) = inl trip0) by (vm_compute; reflexivity).
  exact (conj H1 (conj H2
    (proj1 (proj2 (HandlerFacts2.PutTripsTripID_checks_trip_first api0 _ _ None (world db0) H1)
                  trip0 H2) eq_refl))).
Defined.

Lemma bad_body_no_effect_witness :
  validate_CreateTripRequest api_reject req0 = Some "bad" /\
  PostTrips api_reject (Some req0) (world db0) = (JSON400 ("invalid input: " ++ "bad"), world db0) /\
  UUIDs.Parse (UUIDs.String (uuid_n 1)) = Some (uuid_n 1) /\
  validate_CreateActivityRequest api_reject activity_req0 = Some "bad" /\
  PostTripsTripIDActivities api_reject (UUIDs.String (uuid_n 1)) (Some activity_req0) (world db0)
    = (JSON400 ("invalid input: " ++ "bad"), world db0).
Proof.
  assert (H1 : validate_CreateTripRequest api_reject req0 = Some "bad") by reflexivity.
  assert (H2 : UUIDs.Parse (UUIDs.String (uuid_n 1)) = Some (uuid_n 1)) by (vm_compute; reflexivity).
  assert (H3 : validate_CreateActivityRequest api_reject activity_req0 = Some "bad") by reflexivity.
  pose proof (HandlerFacts2.bad_body_no_effect api_reject (world db0) req0 "bad"
                (UUIDs.String (uuid_n 1)) (uuid_n 1) activity_req0 "bad") as (_ & T1 & T2).
  exact (conj H1 (conj (T1 H1) (conj H2 (conj H3 (proj2 (T2 H2) H3))))).
Defined.

Lemma GetTripsTripIDLinks_lists_links_witness :
  UUIDs.Parse (UUIDs.String (uuid_n 1)) = Some (uuid_n 1) /\
  (fun (_ : DB) (_ : UUID) => @inl (list Link) error links0) (w_db (world db0)) (uuid_n 1)
    = inl links0 /\
  exists out,
    GetTripsTripIDLinks (fun _ _ => inl links0) (UUIDs.String (uuid_n 1)) (world db0)
      = (mkLinksResponse 200 (LinksBodyLinks out), world db0) /\
    length out = length links0 /\
    (forall i link, nth_error links0 i = Some link ->
       exists e, nth_error out i = Some e /\
         UUIDs.Parse (gl_ID e) = Some (link_ID link) /\
         gl_Title e = link_Title link /\ gl_URL e = link_Url link).
Proof.
  assert (H1 : UUIDs.Parse (UUIDs.String (uuid_n 1)) = Some (uuid_n 1)) by (vm_compute; reflexivity).
  assert (H2 : (fun (_ : DB) (_ : UUID) => @inl (list Link) error links0) (w_db (world db0)) (uuid_n 1)
               = inl links0) by reflexivity.
  exact (conj H1 (conj H2
    (HandlerFacts2.GetTripsTripIDLinks_lists_links (fun _ _ => inl links0) _ _ (world db0) links0 H1 H2))).
Defined.

Lemma create_activity_then_listed_witness :
  let r := PostTripsTripIDActivities api0 (UUIDs.String (uuid_n 1)) (Some activity_req0) (world db0) in
  (forall l, Permutation ((fun l : list (string * list Activity) => l) l) l) /\
  r = (Return (mkResponse 201 (BodyCreateActivity (UUIDs.String (uuid_n 10)))), snd r) /\
  exists groups,
    GetTripsTripIDActivities (fun l => l) api0 (UUIDs.String (uuid_n 1)) (snd r) =
      (Return (mkResponse 200 (BodyActivities groups)), snd r) /\
    exists g, In g groups /\
      In (UUIDs.String (uuid_n 10), car_Title activity_req0, car_OccursAt activity_req0) (snd g).
Proof.
  cbv zeta.
  assert (H1 : forall l, Permutation ((fun l : list (string * list Activity) => l) l) l)
    by (intros l; apply Permutation_refl).
  assert (H2 : PostTripsTripIDActivities api0 (UUIDs.String (uuid_n 1)) (Some activity_req0) (world db0)
    = (Return (mkResponse 201 (BodyCreateActivity (UUIDs.String (uuid_n 10)))),
       snd (PostTripsTripIDActivities api0 (UUIDs.String (uuid_n 1)) (Some activity_req0) (world db0))))
    by (vm_compute; reflexivity).
  exact (conj H1 (conj H2
    (CompositionFacts.create_activity_then_listed _ api0 _ activity_req0 (world db0) _ _ H1 H2))).
Defined.

Lemma PostTrips_owner_email_witness :
  let api := mailpit_api (fun _ => true) (fun _ => None) (fun _ => None) (fun _ => None) in
  let w := with_env (fun _ => true) (fun _ => true) (world db0) in
  let r := PostTrips api (Some req0) w in
  r = (Return (mkResponse 201 (BodyCreateTrip (UUIDs.String (uuid_n 10)))), snd r) /\
  exists id, UUIDs.String (uuid_n 10) = UUIDs.String id /\
  find_trip (w_db (snd r)) id =
    Some (mkTrip id (ctr_Destination req0) (ctr_OwnerEmail req0) (ctr_OwnerName req0)
                 (ctr_StartsAt req0) (ctr_EndsAt req0) false) /\
  (w_sched w (length (w_spawned w)) = true ->
     exists body, w_outbox (snd r) = (w_outbox w ++
       (if (fun _ => true) From && (fun _ => true) (ctr_OwnerEmail req0) && w_net w (w_dials w)
        then [mkMsg From (ctr_OwnerEmail req0) "Confirme sua viagem" body] else []))%list) /\
  (w_sched w (length (w_spawned w)) = false ->
     w_outbox (snd r) = w_outbox w /\
     w_pending (snd r) = (w_pending w ++ [GoSendConfirmTripEmailToTripOwner id])%list).
Proof.
  cbv zeta.
  assert (H1 : PostTrips (mailpit_api (fun _ => true) (fun _ => None) (fun _ => None) (fun _ => None))
                 (Some req0) (with_env (fun _ => true) (fun _ => true) (world db0))
    = (Return (mkResponse 201 (BodyCreateTrip (UUIDs.String (uuid_n 10)))),
       snd (PostTrips (mailpit_api (fun _ => true) (fun _ => None) (fun _ => None) (fun _ => None))
              (Some req0) (with_env (fun _ => true) (fun _ => true) (world db0)))))
    by (vm_compute; reflexivity).
  exact (conj H1 (CompositionFacts.PostTrips_owner_email _ _ _ _ req0 _ _ _ H1)).
Defined.

Lemma SendTripConfirmedEmails_edges_witness :
  pg_GetParticipants (w_db (world db_down)) (uuid_n 1) = inr ErrConnection /\
  fst (SendTripConfirmedEmails (fun _ => true) (uuid_n 1) (world db_down)) <> None.
Proof.
  assert (H1 : pg_GetParticipants (w_db (world db_down)) (uuid_n 1) = inr ErrConnection)
    by reflexivity.
  split; [exact H1|].
  pose proof (MailFacts2.SendTripConfirmedEmails_edges (fun _ => true) (uuid_n 1) (world db_down)) as T.
  destruct (SendTripConfirmedEmails (fun _ => true) (uuid_n 1) (world db_down)) as [err w'].
  destruct T as (_ & _ & _ & _ & T & _). exact (proj1 (T _ H1)).
Defined.

Lemma Parse_accepted_forms_witness :
  String.length "URN:UUID:" = 9%nat /\
  UUIDs.equal_fold "URN:UUID:" "urn:uuid:" = true /\
  UUIDs.Parse ("URN:UUID:" ++ UUIDs.String (uuid_n 1)) = Some (uuid_n 1).
Proof.
  assert (H1 : String.length "URN:UUID:" = 9%nat) by reflexivity.
  assert (H2 : UUIDs.equal_fold "URN:UUID:" "urn:uuid:" = true) by (vm_compute; reflexivity).
  exact (conj H1 (conj H2
    (proj1 (proj2 (UUIDForms.Parse_accepted_forms (uuid_n 1))) _ H1 H2))).
Defined.

Lemma FormatDateOnly_ParseDateOnly_roundtrip_witness :
  real_date (mkTime 2025 6 2 9 30 0 0) = true /\
  ParseDateOnly (FormatDateOnly (mkTime 2025 6 2 9 30 0 0)) = midnight (mkTime 2025 6 2 9 30 0 0) /\
  (year (mkTime 10000 1 1 0 0 0 0) < 0 \/ 9999 < year (mkTime 10000 1 1 0 0 0 0))%Z /\
  ParseDateOnly (FormatDateOnly (mkTime 10000 1 1 0 0 0 0)) = ZeroTime.
Proof.
  assert (H1 : real_date (mkTime 2025 6 2 9 30 0 0) = true) by reflexivity.
  assert (H2 : (year (mkTime 10000 1 1 0 0 0 0) < 0 \/ 9999 < year (mkTime 10000 1 1 0 0 0 0))%Z)
    by (right; cbn; lia).
  exact (conj H1 (conj (proj1 (DateForms.FormatDateOnly_ParseDateOnly_roundtrip _) H1)
                 (conj H2 (proj2 (DateForms.FormatDateOnly_ParseDateOnly_roundtrip _) H2)))).
Defined.


End Witnesses2.

